(** * Autostep: the host-side driver of the stepper controller

    A shallow embedding of [software/node/autostep/autostep.js].

    JavaScript values are a small tagged union.  Numbers are IEEE 754
    binary64 values with the arithmetic of the standard library's
    [SpecFloat] (round to nearest, ties to even; signed zeros, infinities,
    one NaN).  Objects are ordered field lists in the order JavaScript
    enumerates them.  The asynchronous methods are written in a
    state-and-exception monad over the connection object, the serial device
    and the log of callback calls. *)

From Stdlib Require Import String List Bool ZArith NArith QArith Qabs Lia.
From Stdlib Require Import DecimalString.
From Stdlib Require Import SpecFloat.
Import ListNotations.
Close Scope Q_scope.
Open Scope string_scope.
Open Scope list_scope.
Set Warnings "-register-all".

(** ** JavaScript values *)

Module JS.

(** A JS number is a double. *)
Definition prec : Z := 53.
Definition emax : Z := 1024.

Definition Num : Type := spec_float.

Definition NNaN : Num := S754_nan.

(** [NInf true] is [-Infinity]. *)
Definition NInf (neg : bool) : Num := S754_infinity neg.

(** [a * b], [a / b] and [a + b] on doubles. *)
Definition num_mul (a b : Num) : Num := SFmul prec emax a b.
Definition num_div (a b : Num) : Num := SFdiv prec emax a b.
Definition num_add (a b : Num) : Num := SFadd prec emax a b.

(** The double nearest to the integer [z] (the value of the decimal numeral
    of [z], as a literal or through [Number]). *)
Definition of_Z (z : Z) : Num := binary_normalize prec emax z 0 false.

(** The literal [n/d]: the double quotient of the doubles of [n] and [d],
    which is the double nearest to [n/d] when both are below 2^53. *)
Definition of_Q (q : Q) : Num := num_div (of_Z (Qnum q)) (of_Z (Zpos (Qden q))).

(** The rational a finite double stands for (0 for the others). *)
Definition exact (n : Num) : Q :=
  match n with
  | S754_finite s m e =>
      ((if s then inject_Z (-1) else inject_Z 1) * inject_Z (Zpos m)
       * Qpower (inject_Z 2) e)%Q
  | _ => inject_Z 0
  end.

Inductive JValue : Type :=
| JUndefined
| JNull
| JBool (b : bool)
| JNum (n : Num)
| JStr (s : string)
| JArr (xs : list JValue) (props : list (string * JValue))
| JObj (fields : list (string * JValue))
| JError (name msg : string) (props : list (string * JValue)).

Definition Fields : Type := list (string * JValue).

Definition num (q : Q) : JValue := JNum (of_Q q).

(** Truthiness, as tested by [if], [!] and [||]: of the numbers, the zeros
    and NaN are falsy. *)
Definition truthy (v : JValue) : bool :=
  match v with
  | JUndefined | JNull => false
  | JBool b => b
  | JNum (S754_zero _) | JNum S754_nan => false
  | JNum _ => true
  | JStr s => negb (String.eqb s "")
  | JArr _ _ | JObj _ | JError _ _ _ => true
  end.

(** lodash [_.isEmpty]: nullish values, numbers and booleans are empty; a
    string or array is empty when its length is zero; an object is empty when
    it has no own enumerable key (the name and message of an Error object
    are not enumerable). *)
Definition isEmpty (v : JValue) : bool :=
  match v with
  | JUndefined | JNull | JBool _ | JNum _ => true
  | JStr s => String.eqb s ""
  | JArr xs _ => match xs with [] => true | _ => false end
  | JObj fs => match fs with [] => true | _ => false end
  | JError _ _ props => match props with [] => true | _ => false end
  end.

(** *** Objects as ordered field lists

    JavaScript enumerates the own keys of an object with the array indices
    first, in ascending order, and then the other keys in the order they
    were created. *)

(** The array index a key denotes, if it is one: a canonical decimal numeral
    below 2^32 - 1. *)
Definition is_index (k : string) : option N :=
  match NilEmpty.uint_of_string k with
  | Some u =>
      let n := N.of_uint u in
      if String.eqb (NilZero.string_of_uint (N.to_uint n)) k
         && (n <? 4294967295)%N
      then Some n else None
  | None => None
  end.

Fixpoint lookup (k : string) (fs : Fields) : option JValue :=
  match fs with
  | [] => None
  | (k', v) :: rest => if String.eqb k k' then Some v else lookup k rest
  end.

Definition has_key (k : string) (fs : Fields) : bool :=
  match lookup k fs with Some _ => true | None => false end.

(** The new value of an existing key, in its place. *)
Fixpoint overwrite (k : string) (v : JValue) (fs : Fields) : Fields :=
  match fs with
  | [] => []
  | (k', v') :: rest =>
      if String.eqb k k' then (k, v) :: rest else (k', v') :: overwrite k v rest
  end.

(** A new index key, put in its place among the indices. *)
Fixpoint insert_index (n : N) (k : string) (v : JValue) (fs : Fields) : Fields :=
  match fs with
  | [] => [(k, v)]
  | (k', v') :: rest =>
      match is_index k' with
      | Some n' =>
          if (n <? n')%N then (k, v) :: (k', v') :: rest
          else (k', v') :: insert_index n k v rest
      | None => (k, v) :: (k', v') :: rest
      end
  end.

(** [o[k] = v]: overwrite in place when the key exists; else a new index goes
    among the indices and any other new key to the end. *)
Definition set (k : string) (v : JValue) (fs : Fields) : Fields :=
  if has_key k fs then overwrite k v fs
  else
    match is_index k with
    | Some n => insert_index n k v fs
    | None => fs ++ [(k, v)]
    end.

(** [delete o[k]]. *)
Fixpoint remove (k : string) (fs : Fields) : Fields :=
  match fs with
  | [] => []
  | (k', v') :: rest =>
      if String.eqb k k' then remove k rest else (k', v') :: remove k rest
  end.

Definition index_key (i : nat) : string :=
  NilEmpty.string_of_uint (Nat.to_uint i).

Fixpoint indexed (i : nat) (xs : list JValue) : Fields :=
  match xs with
  | [] => []
  | x :: rest => (index_key i, x) :: indexed (S i) rest
  end.

Fixpoint chars (s : string) : list JValue :=
  match s with
  | EmptyString => []
  | String c rest => JStr (String c EmptyString) :: chars rest
  end.

(** The own enumerable properties copied by an object spread [...v]. *)
Definition own_fields (v : JValue) : Fields :=
  match v with
  | JObj fs => fs
  | JArr xs props => indexed 0 xs ++ props
  | JStr s => indexed 0 (chars s)
  | JError _ _ props => props
  | _ => []
  end.

(** The object literal [{...base, ...v}]. *)
Definition spread (base : Fields) (v : JValue) : Fields :=
  fold_left (fun acc kv => set (fst kv) (snd kv) acc) (own_fields v) base.

(** [Number(x.toFixed(0))]: [toFixed(0)] prints the integer nearest to [x],
    ties away from zero, with the sign of [x] in front when [x] is below
    zero; a value of magnitude at least 1e21 is printed in full and comes
    back unchanged. *)
Definition round_half_away (q : Q) : Z :=
  (Z.sgn (Qnum q) * ((2 * Z.abs (Qnum q) + Zpos (Qden q)) / (2 * Zpos (Qden q))))%Z.

Definition toFixed0 (n : Num) : Num :=
  match n with
  | S754_finite s m e =>
      if Qle_bool (inject_Z (10 ^ 21)) (Qabs (exact n)) then n
      else
        let z := round_half_away (exact n) in
        if (z =? 0)%Z then S754_zero s else of_Z z
  | S754_zero _ => S754_zero false
  | other => other
  end.

End JS.

Import JS.

(** ** Promises, results and the connection state *)

(** A promise settles at most once: [resolve] and [reject] on a settled
    promise do nothing. *)
Inductive Promise : Type :=
| Pending
| Fulfilled (v : JValue)
| Rejected (e : JValue).

Definition resolve (v : JValue) (p : Promise) : Promise :=
  match p with Pending => Fulfilled v | settled => settled end.

Definition reject (e : JValue) (p : Promise) : Promise :=
  match p with Pending => Rejected e | settled => settled end.

(** What an [await] (or a whole async method) comes to: a value, a thrown
    exception, a wait on a promise that never settles, or a poll loop still
    running when the fuel of the model is spent. *)
Inductive Result (A : Type) : Type :=
| Ret (a : A)
| Throw (e : JValue)
| Blocked
| OutOfFuel.

Arguments Ret {A} a.
Arguments Throw {A} e.
Arguments Blocked {A}.
Arguments OutOfFuel {A}.

(** One call of a caller-supplied callback: [callback(err, rsp)]. *)
Record CbCall : Type := mkCall { cb_id : nat; cb_err : JValue; cb_rsp : JValue }.

(** What the device hands to the callback of [sendCmd]: [(err, rsp)]. *)
Record DevOutcome : Type := mkOutcome { d_err : JValue; d_rsp : string }.

Definition BAUDRATE : Z := 115200.
Definition BUSYWAIT_TIMEOUT_MS : Z := 10.
Definition AUTOSET_POSITION_START_ANGLE : JValue := num 5.
Definition DEFAULT_GEAR_RATIO : JValue := num 1.

Definition type_error (msg : string) : JValue := JError "TypeError" msg [].
Definition syntax_error (line : string) : JValue := JError "SyntaxError" line [].

(** ** The device and the connection state *)

(** The serial device ([serialdevice.js]) and the library functions the
    driver calls are an interface of the development: the controller's state
    and its answer [(err, rsp)] to a command line; [JSON.stringify];
    [JSON.parse] ([None] when it throws); and the numeric coercion of a
    string or an object. *)
Class Device : Type := {
  DevState : Type;
  respond : string -> DevState -> DevOutcome * DevState;
  stringify : JValue -> string;
  parse : string -> option JValue;
  coerce : JValue -> Num
}.

Section State.

Context {device : Device}.

(** The connection object together with its surroundings: the fields of
    [Autostep], the stream callback registered on the device, the heap of
    caller-owned objects, the commands sent and the answers received so far
    (oldest first), the callback calls made so far, the device, and the
    stream samples that will arrive during each coming poll delay. *)
Record World : Type := mkWorld {
  gearRatio : JValue;
  sinusoidRunning : bool;
  streamCallback : option (option nat);
  heap : list Fields;
  sent : list JValue;
  received : list DevOutcome;
  calls : list CbCall;
  dev : DevState;
  arrivals : list (list (JValue * JValue))
}.

Definition set_gearRatio (g : JValue) (w : World) : World :=
  mkWorld g (sinusoidRunning w) (streamCallback w) (heap w) (sent w)
          (received w) (calls w) (dev w) (arrivals w).

Definition set_sinusoidRunning (b : bool) (w : World) : World :=
  mkWorld (gearRatio w) b (streamCallback w) (heap w) (sent w)
          (received w) (calls w) (dev w) (arrivals w).

Definition set_streamCallback (c : option (option nat)) (w : World) : World :=
  mkWorld (gearRatio w) (sinusoidRunning w) c (heap w) (sent w)
          (received w) (calls w) (dev w) (arrivals w).

Definition set_heap (h : list Fields) (w : World) : World :=
  mkWorld (gearRatio w) (sinusoidRunning w) (streamCallback w) h (sent w)
          (received w) (calls w) (dev w) (arrivals w).

Definition set_sent (l : list JValue) (w : World) : World :=
  mkWorld (gearRatio w) (sinusoidRunning w) (streamCallback w) (heap w) l
          (received w) (calls w) (dev w) (arrivals w).

Definition set_received (l : list DevOutcome) (w : World) : World :=
  mkWorld (gearRatio w) (sinusoidRunning w) (streamCallback w) (heap w)
          (sent w) l (calls w) (dev w) (arrivals w).

Definition set_calls (l : list CbCall) (w : World) : World :=
  mkWorld (gearRatio w) (sinusoidRunning w) (streamCallback w) (heap w)
          (sent w) (received w) l (dev w) (arrivals w).

Definition set_dev (d : DevState) (w : World) : World :=
  mkWorld (gearRatio w) (sinusoidRunning w) (streamCallback w) (heap w)
          (sent w) (received w) (calls w) d (arrivals w).

Definition set_arrivals (a : list (list (JValue * JValue))) (w : World) : World :=
  mkWorld (gearRatio w) (sinusoidRunning w) (streamCallback w) (heap w)
          (sent w) (received w) (calls w) (dev w) a.

(** *** The monad of async methods *)

Definition M (A : Type) : Type := World -> Result A * World.

Definition ret {A} (a : A) : M A := fun w => (Ret a, w).

Definition throw {A} (e : JValue) : M A := fun w => (Throw e, w).

Definition bind {A B} (m : M A) (f : A -> M B) : M B :=
  fun w =>
    match m w with
    | (Ret a, w') => f a w'
    | (Throw e, w') => (Throw e, w')
    | (Blocked, w') => (Blocked, w')
    | (OutOfFuel, w') => (OutOfFuel, w')
    end.

Definition get {A} (f : World -> A) : M A := fun w => (Ret (f w), w).

Definition modify (f : World -> World) : M unit := fun w => (Ret tt, f w).

End State.

Notation "x <- m ;; k" := (bind m (fun x => k))
  (at level 61, m at next level, right associativity).
Notation "m ;;; k" := (bind m (fun _ => k))
  (at level 61, right associativity).

(** ** The driver *)

Section Driver.

Context {device : Device}.

(** [callback(err, rsp)] for a caller-supplied function, if there is one. *)
Definition call (cb : option nat) (err rsp : JValue) (w : World) : World :=
  match cb with
  | Some id => set_calls (calls w ++ [mkCall id err rsp]) w
  | None => w
  end.

(** [await p]. *)
Definition await (p : Promise) : M JValue :=
  match p with
  | Fulfilled v => ret v
  | Rejected e => throw e
  | Pending => fun w => (Blocked, w)
  end.

(** [promise.then(rsp => callback(null, rsp)).catch(err => callback(err, null))] *)
Definition notify (cb : option nat) (p : Promise) (w : World) : World :=
  match p with
  | Fulfilled v => call cb JNull v w
  | Rejected e => call cb e JNull w
  | Pending => w
  end.

(** *** Reading properties and arithmetic on values *)

(** [v.k] for one of the fixed names the driver reads: a TypeError on [null]
    and [undefined], [undefined] for a missing key and for a primitive (none
    of the names the driver reads is a built-in property of a string, array,
    number or Error object). *)
Definition getProp (v : JValue) (k : string) : M JValue :=
  match v with
  | JUndefined | JNull => throw (type_error k)
  | JObj fs | JArr _ fs | JError _ _ fs =>
      ret (match lookup k fs with Some x => x | None => JUndefined end)
  | _ => ret JUndefined
  end.

(** ToNumber. *)
Definition toNumber (v : JValue) : Num :=
  match v with
  | JNum n => n
  | JUndefined => NNaN
  | JNull => of_Z 0
  | JBool b => if b then of_Z 1 else of_Z 0
  | other => coerce other
  end.

Definition js_mul (a b : JValue) : JValue := JNum (num_mul (toNumber a) (toNumber b)).
Definition js_div (a b : JValue) : JValue := JNum (num_div (toNumber a) (toNumber b)).

(** *** [_sendCmd] *)

(** The body of the callback handed to [device.sendCmd], acting on the fresh
    promise.  After a parse failure the code rejects and then still calls
    [resolve(rspObj)] with [rspObj] null, which the settled promise ignores. *)
Definition sendCmd_callback (o : DevOutcome) (p : Promise) : Promise :=
  if truthy (d_err o) then reject (d_err o) p
  else
    match parse (d_rsp o) with
    | Some rspObj => resolve rspObj p
    | None => resolve JNull (reject (syntax_error (d_rsp o)) p)
    end.

(** [this.device.sendCmd(line, callback)]: the device, a parameter of the
    development, takes the line and calls the callback once with its
    [(err, rsp)]. *)
Definition device_sendCmd (line : string) (w : World) : DevOutcome * World :=
  let (o, d') := respond line (dev w) in
  (o, set_received (received w ++ [o]) (set_dev d' w)).

(** [_sendCmd(cmd, callback)] followed by the caller's [await]. *)
Definition _sendCmd (cmd : JValue) (callback : option nat) : M JValue :=
  fun w =>
    let (o, w1) := device_sendCmd (stringify cmd) (set_sent (sent w ++ [cmd]) w) in
    let promise := sendCmd_callback o Pending in
    await promise (notify callback promise w1).

Definition command (name : string) : Fields := [("command", JStr name)].

(** [o.k = x] in strict mode, for one of the fixed names the driver assigns
    ([position], [amplitude], [offset]; none is an array index): a TypeError
    on a primitive; an array or an Error object stores the property next to
    its elements or its message. *)
Definition setProp (v : JValue) (k : string) (x : JValue) : M JValue :=
  match v with
  | JObj fs => ret (JObj (set k x fs))
  | JArr xs props => ret (JArr xs (set k x props))
  | JError n m props => ret (JError n m (set k x props))
  | _ => throw (type_error k)
  end.

(** [delete o.k] for the fixed name [success]: a TypeError on [null] and
    [undefined], nothing to do on another primitive. *)
Definition deleteProp (v : JValue) (k : string) : M JValue :=
  match v with
  | JUndefined | JNull => throw (type_error k)
  | JObj fs => ret (JObj (remove k fs))
  | JArr xs props => ret (JArr xs (remove k props))
  | JError n m props => ret (JError n m (remove k props))
  | other => ret other
  end.

(** *** Construction and the gear ratio *)

(** [new Autostep(port, openCallback)] on a device in state [d]. *)
Definition new_Autostep (d : DevState) (h : list Fields)
    (a : list (list (JValue * JValue))) : World :=
  mkWorld DEFAULT_GEAR_RATIO false None h [] [] [] d a.

Definition setGearRatio (g : JValue) : M JValue :=
  modify (set_gearRatio g) ;;; ret JUndefined.

(** *** Commands without scaling *)

Definition simple (name : string) (callback : option nat) : M JValue :=
  _sendCmd (JObj (command name)) callback.

Definition enable := simple "enable".
Definition release := simple "release".
Definition softStop := simple "soft_stop".
Definition hardStop := simple "hard_stop".
Definition isBusy := simple "is_busy".
Definition setMoveModeToMax := simple "set_max_mode".
Definition setMoveModeToJog := simple "set_jog_mode".
Definition getPositionFullsteps := simple "get_position_fullsteps".
Definition getPositionMicrosteps := simple "get_position_microsteps".
Definition getPositionSensor := simple "get_position_sensor".
Definition getVoltageSensor := simple "get_voltage_sensor".
Definition autosetPosition := simple "autoset_position".
Definition getStepMode := simple "get_step_mode".
Definition getFullstepPerRev := simple "get_fullstep_per_rev".
Definition getJogModeParams := simple "get_jog_mode_params".
Definition getMaxModeParams := simple "get_max_mode_params".
Definition getKvalParams := simple "get_kval_params".
Definition getOCThreshold := simple "get_oc_threshold".

Definition with_arg (name key : string) (x : JValue) (callback : option nat)
  : M JValue :=
  _sendCmd (JObj (command name ++ [(key, x)])) callback.

Definition moveToFullsteps := with_arg "move_to_fullsteps" "position".
Definition moveToMicrosteps := with_arg "move_to_microsteps" "position".
Definition setStepMode := with_arg "set_step_mode" "step_mode".
Definition setOCThreshold := with_arg "set_oc_threshold" "threshold".

Definition with_spread (name : string) (params : JValue) (callback : option nat)
  : M JValue :=
  _sendCmd (JObj (spread (command name) params)) callback.

Definition setJogModeParams := with_spread "set_jog_mode_params".
Definition setMaxModeParams := with_spread "set_max_mode_params".
Definition setKvalParams := with_spread "set_kval_params".

(** [fullstepPerRev.toFixed(0)] exists on numbers only. *)
Definition setFullstepPerRev (fullstepPerRev : JValue) (callback : option nat)
  : M JValue :=
  match fullstepPerRev with
  | JNum n =>
      with_arg "set_fullstep_per_rev" "fullstep_per_rev" (JNum (toFixed0 n)) callback
  | _ => throw (type_error "toFixed")
  end.

(** *** Commands scaled by the gear ratio *)

Definition run (velocity : JValue) (callback : option nat) : M JValue :=
  g <- get gearRatio ;;
  with_arg "run" "velocity" (js_mul g velocity) callback.

Definition moveTo (position : JValue) (callback : option nat) : M JValue :=
  g <- get gearRatio ;;
  with_arg "move_to" "position" (js_mul position g) callback.

Definition setPosition (position : JValue) (callback : option nat) : M JValue :=
  g <- get gearRatio ;;
  with_arg "set_position" "position" (js_mul position g) callback.

(** [_.cloneDeep] of a reply: what [JSON.parse] returns is a tree of
    mappings, arrays and primitives that nothing else refers to, so the copy
    is the value. *)
Definition cloneDeep (v : JValue) : JValue := v.

Definition getPosition (callback : option nat) : M JValue :=
  rsp <- simple "get_position" callback ;;
  let rspAdj := cloneDeep rsp in
  pos <- getProp rspAdj "position" ;;
  g <- get gearRatio ;;
  setProp rspAdj "position" (js_div pos g).

(** *** [setParams] and [getParams] *)

Inductive Setter : Type :=
| SetFullstepPerRev
| SetStepMode
| SetOCThreshold
| SetJogModeParams
| SetMaxModeParams
| SetKvalParams.

(** The table [paramSetters], in the order a [for .. in] visits it. *)
Definition paramSetters : list (string * Setter) :=
  [ ("fullstepPerRev", SetFullstepPerRev);
    ("stepMode", SetStepMode);
    ("threshold", SetOCThreshold);
    ("jogMode", SetJogModeParams);
    ("maxMode", SetMaxModeParams);
    ("kval", SetKvalParams) ].

(** [this[setterName].bind(this)(value)] *)
Definition setterMethod (s : Setter) (value : JValue) : M JValue :=
  match s with
  | SetFullstepPerRev => setFullstepPerRev value None
  | SetStepMode => setStepMode value None
  | SetOCThreshold => setOCThreshold value None
  | SetJogModeParams => setJogModeParams value None
  | SetMaxModeParams => setMaxModeParams value None
  | SetKvalParams => setKvalParams value None
  end.

Fixpoint setParams_from (table : list (string * Setter)) (params : JValue)
  : M JValue :=
  match table with
  | [] => ret (JObj [("success", JBool true)])
  | (paramName, setter) :: rest =>
      paramValue <- getProp params paramName ;;
      if truthy paramValue then
        rsp <- setterMethod setter paramValue ;;
        success <- getProp rsp "success" ;;
        if negb (truthy success) then ret rsp
        else setParams_from rest params
      else setParams_from rest params
  end.

Definition setParams (params : JValue) : M JValue :=
  setParams_from paramSetters params.

Definition getParams : M JValue :=
  rsp <- getFullstepPerRev None ;;
  fullstepPerRev <- getProp rsp "fullstep_per_rev" ;;
  rsp <- getStepMode None ;;
  stepMode <- getProp rsp "step_mode" ;;
  rsp <- getOCThreshold None ;;
  threshold <- getProp rsp "threshold" ;;
  jogModeParams <- getJogModeParams None ;;
  jogModeParams <- deleteProp jogModeParams "success" ;;
  maxModeParams <- getMaxModeParams None ;;
  maxModeParams <- deleteProp maxModeParams "success" ;;
  kvalParams <- getKvalParams None ;;
  kvalParams <- deleteProp kvalParams "success" ;;
  ret (JObj [ ("fullstepPerRev", fullstepPerRev);
              ("stepMode", stepMode);
              ("threshold", threshold);
              ("jogMode", jogModeParams);
              ("maxMode", maxModeParams);
              ("kval", kvalParams) ]).

(** *** [sinusoid] and the stream *)

(** The caller's [params] is a reference into the heap. *)
Definition heap_read (l : nat) : M Fields :=
  fun w =>
    match nth_error (heap w) l with
    | Some fs => (Ret fs, w)
    | None => (Throw (JError "ReferenceError" "params" []), w)
    end.

Fixpoint update_nth {A} (l : nat) (x : A) (xs : list A) : list A :=
  match xs, l with
  | [], _ => []
  | _ :: rest, O => x :: rest
  | y :: rest, S l' => y :: update_nth l' x rest
  end.

(** [ref[k] = x] on a heap object. *)
Definition heap_setProp (l : nat) (k : string) (x : JValue) : M unit :=
  fs <- heap_read l ;;
  modify (fun w => set_heap (update_nth l (set k x fs) (heap w)) w).

(** [_.cloneDeep(ref)]: a new heap object with the same fields. *)
Definition heap_cloneDeep (l : nat) : M nat :=
  fs <- heap_read l ;;
  fresh <- get (fun w => length (heap w)) ;;
  modify (fun w => set_heap (heap w ++ [fs]) w) ;;;
  ret fresh.

Definition field (k : string) (fs : Fields) : JValue :=
  match lookup k fs with Some x => x | None => JUndefined end.

(** The closure [streamCallbackWrapped], with the caller's [streamCallback]
    it captures. *)
Definition streamCallbackWrapped (streamCallback : option nat)
    (err data : JValue) (w : World) : World :=
  let w1 := if truthy err || isEmpty data then set_sinusoidRunning false w else w in
  call streamCallback err data w1.

Definition sinusoid (params : nat) (cmdCallback streamCallback : option nat)
  : M JValue :=
  paramsAdj <- heap_cloneDeep params ;;
  fs <- heap_read paramsAdj ;;
  g <- get gearRatio ;;
  heap_setProp paramsAdj "amplitude" (js_mul (field "amplitude" fs) g) ;;;
  fs <- heap_read paramsAdj ;;
  g <- get gearRatio ;;
  heap_setProp paramsAdj "offset" (js_mul (field "offset" fs) g) ;;;
  fs <- heap_read paramsAdj ;;
  let cmd := JObj (spread (command "sinusoid") (JObj fs)) in
  modify (set_streamCallback (Some streamCallback)) ;;;
  modify (set_sinusoidRunning true) ;;;
  rsp <- _sendCmd cmd cmdCallback ;;
  let rspAdj := cloneDeep rsp in
  amplitude <- getProp rspAdj "amplitude" ;;
  g <- get gearRatio ;;
  rspAdj <- setProp rspAdj "amplitude" (js_div amplitude g) ;;
  offset <- getProp rspAdj "offset" ;;
  g <- get gearRatio ;;
  rspAdj <- setProp rspAdj "offset" (js_div offset g) ;;
  ret rspAdj.

(** The device calls the callback registered with [setStreamCallback] on
    every stream sample [(err, data)] it receives. *)
Definition deliver (sample : JValue * JValue) (w : World) : World :=
  match streamCallback w with
  | Some captured => streamCallbackWrapped captured (fst sample) (snd sample) w
  | None => w
  end.

(** *** [busyWait] *)

(** [await timeout(BUSYWAIT_TIMEOUT_MS)]: the samples due during this delay
    arrive, in order. *)
Definition timeout : M unit :=
  fun w =>
    match arrivals w with
    | [] => (Ret tt, w)
    | now :: later =>
        (Ret tt, fold_left (fun acc sample => deliver sample acc) now
                           (set_arrivals later w))
    end.

(** One pass through the body of [while (!done)], after the delay; [done] is
    the variable's value on entry and the result its value on exit. *)
Definition poll_status : M bool :=
  rsp <- isBusy None ;;
  success <- getProp rsp "success" ;;
  if truthy success then
    busy <- getProp rsp "is_busy" ;;
    ret (negb (truthy busy))
  else ret true.

Definition busyWait_body (done : bool) : M bool :=
  running <- get sinusoidRunning ;;
  if running then
    still <- get sinusoidRunning ;;
    if negb still then ret true else ret done
  else poll_status.

Fixpoint busyWait_loop (fuel : nat) (done : bool) : M unit :=
  if done then ret tt
  else
    match fuel with
    | O => fun w => (OutOfFuel, w)
    | S fuel' =>
        timeout ;;;
        done' <- busyWait_body done ;;
        busyWait_loop fuel' done'
    end.

(** [busyWait(callback)] followed by the caller's [await].  An exception in
    the async executor never reaches [resolve] or [reject], so the promise
    stays pending. *)
Definition busyWait (fuel : nat) (callback : option nat) : M JValue :=
  fun w =>
    match busyWait_loop fuel false w with
    | (Ret _, w') =>
        let promise := resolve JUndefined Pending in
        await promise (notify callback promise w')
    | (Throw _, w') => (Blocked, w')
    | (Blocked, w') => (Blocked, w')
    | (OutOfFuel, w') => (OutOfFuel, w')
    end.

(** *** [autosetPositionProcedure] *)

(** One step of the executor: [rsp = await step; if (!rsp.success) reject(msg)].
    The executor goes on after a [reject]. *)
Definition autoset_step (step : M JValue) (msg : string) (promise : Promise)
  : World -> Promise * Result unit * World :=
  fun w =>
    match (rsp <- step ;; getProp rsp "success") w with
    | (Ret success, w') =>
        ((if negb (truthy success) then reject (JStr msg) promise else promise),
         Ret tt, w')
    | (Throw e, w') => (promise, Throw e, w')
    | (Blocked, w') => (promise, Blocked, w')
    | (OutOfFuel, w') => (promise, OutOfFuel, w')
    end.

(** The async executor handed to [new Promise]: the state of that promise
    when the executor stops, how the executor stopped, and the world then. *)
Definition autoset_executor (fuel : nat) (w : World)
  : Promise * Result unit * World :=
  match autoset_step (autosetPosition None) "autoset: set position failed" Pending w with
  | (p1, Ret _, w1) =>
      match autoset_step (moveTo AUTOSET_POSITION_START_ANGLE None)
                         "autoset: move to start position failed" p1 w1 with
      | (p2, Ret _, w2) =>
          match busyWait fuel None w2 with
          | (Ret _, w3) =>
              autoset_step (autosetPosition None) "autoset: set position failed" p2 w3
          | (Throw e, w3) => (p2, Throw e, w3)
          | (Blocked, w3) => (p2, Blocked, w3)
          | (OutOfFuel, w3) => (p2, OutOfFuel, w3)
          end
      | stopped => stopped
      end
  | stopped => stopped
  end.

(** [autosetPositionProcedure(callback)]: the value the call returns (the
    method has no [return] statement), the internal promise, and the world
    once the executor has stopped. *)
Definition autosetPositionProcedure (fuel : nat) (callback : option nat)
    (w : World) : JValue * Promise * World :=
  let '(promise, _, w') := autoset_executor fuel w in
  (JUndefined, promise, w').

End Driver.

(** ** Vocabulary of the statements *)

Section Vocabulary.

Context {device : Device}.

(** The world after one exchange with the device: [cmd] was sent, the
    device moved to [d'] and delivered [o]. *)
Definition exchanged (cmd : JValue) (o : DevOutcome) (d' : DevState)
    (w : World) : World :=
  set_received (received w ++ [o]) (set_dev d' (set_sent (sent w ++ [cmd]) w)).

(** The device answers the next command with a line that parses to [v]. *)
Definition answers (cmd : JValue) (w : World) (o : DevOutcome)
    (d' : DevState) (v : JValue) : Prop :=
  respond (stringify cmd) (dev w) = (o, d') /\
  truthy (d_err o) = false /\
  parse (d_rsp o) = Some v.

Definition is_busy_cmd : JValue := JObj (command "is_busy").

(** What the poll concludes from a reply: done on a failed query, else done
    when the busy flag is falsy. *)
Definition poll_verdict (fs : Fields) : bool :=
  if truthy (field "success" fs) then negb (truthy (field "is_busy" fs))
  else true.

(** The device answers every command, in every state, with a line that
    parses to a mapping. *)
Definition answers_mappings : Prop :=
  forall line d,
    truthy (d_err (fst (respond line d))) = false /\
    exists fs, parse (d_rsp (fst (respond line d))) = Some (JObj fs).


(** The gear ratio is the number zero. *)
Definition is_zero (v : JValue) : bool :=
  match toNumber v with
  | S754_zero _ => true
  | _ => false
  end.

(** The operations of a connection: the methods of [Autostep] (all but
    [moveBy], [moveToSinusoidStart], [printParams] and [sleep], which need
    string concatenation, a sine or the console) and the arrival of a stream
    sample. *)
Inductive Op : Type :=
| OpSetGearRatio (g : JValue)
| OpEnable (cb : option nat)
| OpRelease (cb : option nat)
| OpRun (velocity : JValue) (cb : option nat)
| OpSinusoid (params : nat) (cmdCb streamCb : option nat)
| OpMoveTo (position : JValue) (cb : option nat)
| OpMoveToFullsteps (position : JValue) (cb : option nat)
| OpMoveToMicrosteps (position : JValue) (cb : option nat)
| OpSoftStop (cb : option nat)
| OpHardStop (cb : option nat)
| OpIsBusy (cb : option nat)
| OpBusyWait (cb : option nat)
| OpSetMoveModeToMax (cb : option nat)
| OpSetMoveModeToJog (cb : option nat)
| OpGetPosition (cb : option nat)
| OpSetPosition (position : JValue) (cb : option nat)
| OpGetPositionFullsteps (cb : option nat)
| OpGetPositionMicrosteps (cb : option nat)
| OpGetPositionSensor (cb : option nat)
| OpGetVoltageSensor (cb : option nat)
| OpAutosetPosition (cb : option nat)
| OpAutosetPositionProcedure (cb : option nat)
| OpGetStepMode (cb : option nat)
| OpSetStepMode (stepMode : JValue) (cb : option nat)
| OpGetFullstepPerRev (cb : option nat)
| OpSetFullstepPerRev (fullstepPerRev : JValue) (cb : option nat)
| OpGetJogModeParams (cb : option nat)
| OpSetJogModeParams (params : JValue) (cb : option nat)
| OpGetMaxModeParams (cb : option nat)
| OpSetMaxModeParams (params : JValue) (cb : option nat)
| OpGetKvalParams (cb : option nat)
| OpSetKvalParams (params : JValue) (cb : option nat)
| OpGetOCThreshold (cb : option nat)
| OpSetOCThreshold (threshold : JValue) (cb : option nat)
| OpSetParams (params : JValue)
| OpGetParams
| OpSample (sample : JValue * JValue).

Definition method (fuel : nat) (op : Op) : M JValue :=
  match op with
  | OpSetGearRatio g => setGearRatio g
  | OpEnable cb => enable cb
  | OpRelease cb => release cb
  | OpRun v cb => run v cb
  | OpSinusoid params cb scb => sinusoid params cb scb
  | OpMoveTo x cb => moveTo x cb
  | OpMoveToFullsteps x cb => moveToFullsteps x cb
  | OpMoveToMicrosteps x cb => moveToMicrosteps x cb
  | OpSoftStop cb => softStop cb
  | OpHardStop cb => hardStop cb
  | OpIsBusy cb => isBusy cb
  | OpBusyWait cb => busyWait fuel cb
  | OpSetMoveModeToMax cb => setMoveModeToMax cb
  | OpSetMoveModeToJog cb => setMoveModeToJog cb
  | OpGetPosition cb => getPosition cb
  | OpSetPosition x cb => setPosition x cb
  | OpGetPositionFullsteps cb => getPositionFullsteps cb
  | OpGetPositionMicrosteps cb => getPositionMicrosteps cb
  | OpGetPositionSensor cb => getPositionSensor cb
  | OpGetVoltageSensor cb => getVoltageSensor cb
  | OpAutosetPosition cb => autosetPosition cb
  | OpAutosetPositionProcedure cb =>
      fun w => let '(v, _, w') := autosetPositionProcedure fuel cb w in (Ret v, w')
  | OpGetStepMode cb => getStepMode cb
  | OpSetStepMode x cb => setStepMode x cb
  | OpGetFullstepPerRev cb => getFullstepPerRev cb
  | OpSetFullstepPerRev x cb => setFullstepPerRev x cb
  | OpGetJogModeParams cb => getJogModeParams cb
  | OpSetJogModeParams x cb => setJogModeParams x cb
  | OpGetMaxModeParams cb => getMaxModeParams cb
  | OpSetMaxModeParams x cb => setMaxModeParams x cb
  | OpGetKvalParams cb => getKvalParams cb
  | OpSetKvalParams x cb => setKvalParams x cb
  | OpGetOCThreshold cb => getOCThreshold cb
  | OpSetOCThreshold x cb => setOCThreshold x cb
  | OpSetParams params => setParams params
  | OpGetParams => getParams
  | OpSample sample => modify (deliver sample) ;;; ret JUndefined
  end.

(** The connection after the operation, however it ended. *)
Definition perform (fuel : nat) (op : Op) (w : World) : World :=
  snd (method fuel op w).

(** The command object a setter builds from its argument. *)
Definition setter_cmd (s : Setter) (value : JValue) : JValue :=
  match s with
  | SetFullstepPerRev =>
      match value with
      | JNum n =>
          JObj (command "set_fullstep_per_rev" ++ [("fullstep_per_rev", JNum (toFixed0 n))])
      | _ => JUndefined
      end
  | SetStepMode => JObj (command "set_step_mode" ++ [("step_mode", value)])
  | SetOCThreshold => JObj (command "set_oc_threshold" ++ [("threshold", value)])
  | SetJogModeParams => JObj (spread (command "set_jog_mode_params") value)
  | SetMaxModeParams => JObj (spread (command "set_max_mode_params") value)
  | SetKvalParams => JObj (spread (command "set_kval_params") value)
  end.

(** The setters to apply for [params], in the order of the table: those
    whose field holds a truthy value, each with that value. *)
Definition selected (table : list (string * Setter)) (params : Fields)
  : list (Setter * JValue) :=
  flat_map (fun entry =>
              if truthy (field (fst entry) params)
              then [(snd entry, field (fst entry) params)] else [])
           table.

Definition selected_cmds (table : list (string * Setter)) (params : Fields)
  : list JValue :=
  map (fun sv => setter_cmd (fst sv) (snd sv)) (selected table params).

(** [toFixed] exists on the value given to [setFullstepPerRev]. *)
Definition applicable (sv : Setter * JValue) : Prop :=
  match fst sv with
  | SetFullstepPerRev => exists n, snd sv = JNum n
  | _ => True
  end.

Definition succeeded (reply : Fields) : Prop :=
  truthy (field "success" reply) = true.

(** The method leaves [this.gearRatio] as it found it, however it ends. *)
Definition keeps_ratio {A} (m : M A) : Prop :=
  forall w, gearRatio (snd (m w)) = gearRatio w.

End Vocabulary.

(** ** Further methods and vocabulary *)

Section Further.

Context {device : Device}.

(** The string case of [+], a library function: the concatenation of the
    string forms of the operands. *)
Variable concat : JValue -> JValue -> JValue.

(** The operand is [undefined], [null], a boolean or a number, so that [+]
    adds numbers. *)
Definition adds_as_number (v : JValue) : bool :=
  match v with
  | JUndefined | JNull | JBool _ | JNum _ => true
  | _ => false
  end.

(** [a + b]. *)
Definition js_add (a b : JValue) : JValue :=
  if adds_as_number a && adds_as_number b
  then JNum (num_add (toNumber a) (toNumber b))
  else concat a b.

Definition moveBy (step : JValue) (callback : option nat) : M JValue :=
  rsp <- getPosition None ;;
  position <- getProp rsp "position" ;;
  moveTo (js_add position step) callback.

(** A sample that ends the stream: it comes with an error or is empty. *)
Definition terminating (sample : JValue * JValue) : bool :=
  truthy (fst sample) || isEmpty (snd sample).

(** The controller answers the next [n] status queries "busy" and the one
    after that "not busy" or with a failure. *)
Fixpoint busy_for (n : nat) (d : DevState) : Prop :=
  let (o, d') := respond (stringify is_busy_cmd) d in
  truthy (d_err o) = false /\
  exists fs,
    parse (d_rsp o) = Some (JObj fs) /\
    match n with
    | O => truthy (field "success" fs) = false \/
           truthy (field "is_busy" fs) = false
    | S n' => truthy (field "success" fs) = true /\
              truthy (field "is_busy" fs) = true /\
              busy_for n' d'
    end.

(** The method does not start a streaming session. *)
Definition keeps_idle {A} (m : M A) : Prop :=
  forall w, sinusoidRunning w = false -> sinusoidRunning (snd (m w)) = false.

(** Every run of the method takes a world to one related to it by [R]. *)
Definition preserves (R : World -> World -> Prop) {A} (m : M A) : Prop :=
  forall w, R w (snd (m w)).

(** No session becomes active between the two worlds. *)
Definition stays_idle (w w' : World) : Prop :=
  sinusoidRunning w = false -> sinusoidRunning w' = false.

(** The session flag and the registered stream callback are the same. *)
Definition same_session (w w' : World) : Prop :=
  sinusoidRunning w' = sinusoidRunning w /\ streamCallback w' = streamCallback w.



(** The value, when it is a mapping, has no [success] key. *)
Definition without_success (v : JValue) : Prop :=
  forall fs, v = JObj fs -> has_key "success" fs = false.

(** The operations that are plain methods: all but [setGearRatio],
    [sinusoid] and the arrival of a sample. *)
Definition plain_method (op : Op) : bool :=
  match op with
  | OpSetGearRatio _ | OpSinusoid _ _ _ | OpSample _ => false
  | _ => true
  end.

End Further.

(** ** A bench device for the examples

    A scripted device that answers each command with the next line of its
    script (and with ["ok"] once the script is used up), a wire format that
    keeps the command name only, and two readers of reply lines. *)

Module Bench.

Definition scripted (cmd : string) (script : list string)
  : DevOutcome * list string :=
  match script with
  | [] => (mkOutcome JNull "ok", [])
  | l :: rest => (mkOutcome JNull l, rest)
  end.

Definition wire (cmd : JValue) : string :=
  match cmd with
  | JObj fs => match lookup "command" fs with Some (JStr n) => n | _ => "" end
  | _ => ""
  end.

Definition ok : Fields := [("success", JBool true)].
Definition failed : Fields := [("success", JBool false)].

(** A reader that fails on every line it does not know. *)
Definition read (s : string) : option JValue :=
  if String.eqb s "ok" then Some (JObj ok)
  else if String.eqb s "fail" then Some (JObj failed)
  else if String.eqb s "busy" then Some (JObj (ok ++ [("is_busy", JBool true)]))
  else if String.eqb s "idle" then Some (JObj (ok ++ [("is_busy", JBool false)]))
  else if String.eqb s "at 6" then Some (JObj (ok ++ [("position", num 6)]))
  else if String.eqb s "sine" then
    Some (JObj (ok ++ [("amplitude", num 180); ("offset", num 20)]))
  else if String.eqb s "at inf" then
    Some (JObj (ok ++ [("position", JNum (NInf false))]))
  else None.

(** A reader that never fails: every line but ["fail"] reads as a success. *)
Definition lenient (s : string) : option JValue :=
  if String.eqb s "fail" then Some (JObj failed) else Some (JObj ok).

Definition nan (v : JValue) : Num := NNaN.

Definition strict : Device :=
  {| DevState := list string; respond := scripted; stringify := wire;
     parse := read; coerce := nan |}.

Definition tolerant : Device :=
  {| DevState := list string; respond := scripted; stringify := wire;
     parse := lenient; coerce := nan |}.

(** The parameters of the demo script. *)
Definition demo_params : Fields :=
  [ ("amplitude", num 90); ("period", num 1); ("phase", num 90);
    ("offset", num 0); ("num_cycle", num 2) ].

Definition sample : JValue * JValue := (JNull, JObj [("angle", num 1)]).
Definition last_sample : JValue * JValue := (JNull, JObj []).

(** A connection about to run the demo sinusoid: one sample arrives during
    the first poll delay, the empty sample that ends the stream during the
    second; the controller is still busy at the first status query. *)
Definition demo : World (device := strict) :=
  new_Autostep (device := strict) ["sine"; "busy"; "idle"] [demo_params]
               [[sample]; [last_sample]].

Definition streaming : World (device := strict) :=
  snd (sinusoid (device := strict) 0 None None demo).

(** A fresh connection on the strict bench, and one on the tolerant bench. *)
Definition fresh (script : list string) : World (device := strict) :=
  new_Autostep (device := strict) script [] [].

Definition lax (script : list string) : World (device := tolerant) :=
  new_Autostep (device := tolerant) script [] [].

Definition geared (script : list string) : World (device := strict) :=
  perform (device := strict) 0 (OpSetGearRatio (num 2)) (fresh script).

Definition three_params : Fields :=
  [ ("fullstepPerRev", num 200); ("stepMode", JStr "bad"); ("threshold", num 3) ].

(** [+] on two strings; the examples add numbers only. *)
Definition glue (a b : JValue) : JValue :=
  match a, b with
  | JStr x, JStr y => JStr (x ++ y)
  | _, _ => JStr ""
  end.

(** A connection whose gear ratio was set to zero. *)
Definition stalled (script : list string) : World (device := strict) :=
  perform (device := strict) 0 (OpSetGearRatio (num 0)) (fresh script).

(** The demo sinusoid started with a stream callback (number 7). *)
Definition listening : World (device := strict) :=
  snd (sinusoid (device := strict) 0 None (Some 7) demo).

(** A stream that goes on: no arriving sample ends it. *)
Definition endless : World (device := strict) :=
  set_arrivals (device := strict) [[sample]; [sample; sample]] streaming.

(** The demo sinusoid on a device that answers with a line that does not
    parse. *)
Definition garbled : World (device := strict) :=
  new_Autostep (device := strict) ["junk"] [demo_params] [].

Definition jog_params : Fields := [("speed", num 100); ("accel", num 50)].

(** A sinusoid of amplitude 90 about the offset 10, on a connection with
    gear ratio 2. *)
Definition wave_params : Fields :=
  [ ("amplitude", num 90); ("period", num 1); ("phase", num 90);
    ("offset", num 10); ("num_cycle", num 2) ].

Definition geared_wave : World (device := strict) :=
  perform (device := strict) 0 (OpSetGearRatio (num 2))
          (new_Autostep (device := strict) ["sine"] [wave_params] []).



End Bench.

(** ** Properties *)

Section Properties.

Context {device : Device}.

Lemma sendCmd_reply cmd callback w o d' v :
  answers cmd w o d' v ->
  _sendCmd cmd callback w = (Ret v, call callback JNull v (exchanged cmd o d' w)).
Proof.
  intros (Hr & He & Hp).
  unfold _sendCmd, device_sendCmd, sendCmd_callback. cbn.
  rewrite Hr. cbn. rewrite He, Hp. reflexivity.
Qed.

Lemma sendCmd_reply_plain cmd w o d' v :
  answers cmd w o d' v ->
  _sendCmd cmd None w = (Ret v, exchanged cmd o d' w).
Proof. intros H. now rewrite (sendCmd_reply _ _ _ _ _ _ H). Qed.

Lemma poll_status_reply w o d' fs :
  answers is_busy_cmd w o d' (JObj fs) ->
  poll_status w = (Ret (poll_verdict fs), exchanged is_busy_cmd o d' w).
Proof.
  intros H. unfold poll_status, isBusy, simple, bind.
  fold is_busy_cmd. rewrite (sendCmd_reply_plain _ _ _ _ _ H).
  unfold poll_verdict, field. cbn.
  destruct (truthy _); reflexivity.
Qed.

(** *** The poll delay *)

Lemma call_keeps callback err rsp w :
  sinusoidRunning (call callback err rsp w) = sinusoidRunning w /\
  dev (call callback err rsp w) = dev w /\
  sent (call callback err rsp w) = sent w /\
  gearRatio (call callback err rsp w) = gearRatio w /\
  heap (call callback err rsp w) = heap w.
Proof. destruct callback; cbn; auto. Qed.

Lemma deliver_keeps sample w :
  dev (deliver sample w) = dev w /\
  sent (deliver sample w) = sent w /\
  gearRatio (deliver sample w) = gearRatio w /\
  heap (deliver sample w) = heap w /\
  (sinusoidRunning w = false -> sinusoidRunning (deliver sample w) = false).
Proof.
  unfold deliver, streamCallbackWrapped.
  destruct (streamCallback w) as [captured|]; [|auto].
  destruct (truthy (fst sample) || isEmpty (snd sample));
    destruct captured; cbn; auto.
Qed.

Lemma deliver_all_keeps samples w :
  let w' := fold_left (fun acc sample => deliver sample acc) samples w in
  dev w' = dev w /\ sent w' = sent w /\ gearRatio w' = gearRatio w /\
  heap w' = heap w /\
  (sinusoidRunning w = false -> sinusoidRunning w' = false).
Proof.
  revert w. induction samples as [|s rest IH]; intros w; cbn; [auto|].
  destruct (IH (deliver s w)) as (Hd & Hs & Hg & Hh & Hr).
  destruct (deliver_keeps s w) as (Hd' & Hs' & Hg' & Hh' & Hr').
  cbn in *. rewrite Hd, Hs, Hg, Hh. repeat split; auto.
Qed.

Lemma timeout_keeps w :
  fst (timeout w) = Ret tt /\
  dev (snd (timeout w)) = dev w /\
  sent (snd (timeout w)) = sent w /\
  gearRatio (snd (timeout w)) = gearRatio w /\
  heap (snd (timeout w)) = heap w /\
  (sinusoidRunning w = false -> sinusoidRunning (snd (timeout w)) = false).
Proof.
  unfold timeout. destruct (arrivals w) as [|now later]; cbn; [auto 10|].
  split; [reflexivity|].
  apply (deliver_all_keeps now (set_arrivals later w)).
Qed.

Lemma answers_same_dev cmd w w' o d' v :
  dev w' = dev w -> answers cmd w o d' v -> answers cmd w' o d' v.
Proof. unfold answers. intros ->. auto. Qed.

Lemma busyWait_body_idle done w :
  sinusoidRunning w = false -> busyWait_body done w = poll_status w.
Proof. intros H. unfold busyWait_body, bind, get. now rewrite H. Qed.

Lemma busyWait_loop_step fuel w :
  busyWait_loop (S fuel) false w =
  match (timeout ;;; busyWait_body false) w with
  | (Ret done, w') => busyWait_loop fuel done w'
  | (Throw e, w') => (Throw e, w')
  | (Blocked, w') => (Blocked, w')
  | (OutOfFuel, w') => (OutOfFuel, w')
  end.
Proof.
  cbn [busyWait_loop]. unfold bind.
  destruct (timeout w) as [[| | |] w1]; reflexivity.
Qed.

Lemma busyWait_loop_done fuel w : busyWait_loop fuel true w = (Ret tt, w).
Proof. destruct fuel; reflexivity. Qed.

(** *** The busy-poll coordinator, no stream active *)


(** *** The gear ratio *)

Lemma keeps_ret A (a : A) : keeps_ratio (ret a).
Proof. intros w. reflexivity. Qed.

Lemma keeps_throw A e : keeps_ratio (@throw _ A e).
Proof. intros w. reflexivity. Qed.

Lemma keeps_get A (f : World -> A) : keeps_ratio (get f).
Proof. intros w. reflexivity. Qed.

Lemma keeps_bind A B (m : M A) (f : A -> M B) :
  keeps_ratio m -> (forall a, keeps_ratio (f a)) -> keeps_ratio (bind m f).
Proof.
  intros Hm Hf w. unfold bind. specialize (Hm w).
  destruct (m w) as [[a|e| |] w1]; cbn in *; try assumption.
  now rewrite Hf.
Qed.

Lemma keeps_await p : keeps_ratio (await p).
Proof. destruct p; intros w; reflexivity. Qed.

Lemma keeps_getProp v k : keeps_ratio (getProp v k).
Proof. destruct v; intros w; reflexivity. Qed.

Lemma keeps_setProp v k x : keeps_ratio (setProp v k x).
Proof. destruct v; intros w; reflexivity. Qed.

Lemma keeps_deleteProp v k : keeps_ratio (deleteProp v k).
Proof. destruct v; intros w; reflexivity. Qed.

Lemma keeps_sendCmd cmd callback : keeps_ratio (_sendCmd cmd callback).
Proof.
  intros w. unfold _sendCmd, device_sendCmd. cbn.
  destruct (respond (stringify cmd) (dev w)) as [o d'].
  rewrite keeps_await. unfold notify.
  destruct (sendCmd_callback o Pending);
    try (destruct (call_keeps callback JNull v
           (set_received (received w ++ [o])
              (set_dev d' (set_sent (sent w ++ [cmd]) w)))) as (_ & _ & _ & -> & _));
    try (destruct (call_keeps callback e JNull
           (set_received (received w ++ [o])
              (set_dev d' (set_sent (sent w ++ [cmd]) w)))) as (_ & _ & _ & -> & _));
    reflexivity.
Qed.

Lemma keeps_heap_read l : keeps_ratio (heap_read l).
Proof. intros w. unfold heap_read. destruct (nth_error _ _); reflexivity. Qed.

Lemma keeps_modify (f : World -> World) :
  (forall w, gearRatio (f w) = gearRatio w) -> keeps_ratio (modify f).
Proof. intros H w. cbn. apply H. Qed.

Lemma keeps_timeout : keeps_ratio timeout.
Proof. intros w. now destruct (timeout_keeps w) as (_ & _ & _ & -> & _). Qed.

Create HintDb ratio.

#[local] Hint Resolve keeps_ret keeps_throw keeps_get keeps_await keeps_getProp
  keeps_setProp keeps_deleteProp keeps_sendCmd keeps_heap_read keeps_timeout
  : ratio.

Ltac keep :=
  repeat first
    [ solve [auto with ratio]
    | apply keeps_bind; [| intros ?]
    | apply keeps_modify; intros ?; reflexivity
    | match goal with
      | |- keeps_ratio (if ?b then _ else _) => destruct b
      | |- keeps_ratio (match ?x with _ => _ end) => destruct x
      end ].

Lemma keeps_simple name callback : keeps_ratio (simple name callback).
Proof. unfold simple. keep. Qed.

Lemma keeps_with_arg name key x callback :
  keeps_ratio (with_arg name key x callback).
Proof. unfold with_arg. keep. Qed.

Lemma keeps_with_spread name params callback :
  keeps_ratio (with_spread name params callback).
Proof. unfold with_spread. keep. Qed.

#[local] Hint Resolve keeps_simple keeps_with_arg keeps_with_spread : ratio.

Lemma keeps_setFullstepPerRev x callback :
  keeps_ratio (setFullstepPerRev x callback).
Proof. unfold setFullstepPerRev. keep. Qed.

Lemma keeps_setterMethod s value : keeps_ratio (setterMethod s value).
Proof.
  destruct s; cbn [setterMethod];
    unfold setStepMode, setOCThreshold, setJogModeParams, setMaxModeParams,
      setKvalParams; auto using keeps_setFullstepPerRev with ratio.
Qed.

Lemma keeps_setParams_from table params :
  keeps_ratio (setParams_from table params).
Proof.
  induction table as [|[paramName setter] rest IH]; cbn [setParams_from].
  - keep.
  - apply keeps_bind; [keep|]. intros paramValue.
    destruct (truthy paramValue); [|exact IH].
    apply keeps_bind; [apply keeps_setterMethod|]. intros rsp.
    apply keeps_bind; [keep|]. intros success.
    destruct (negb (truthy success)); [keep|exact IH].
Qed.

Lemma keeps_getParams : keeps_ratio getParams.
Proof.
  unfold getParams, getFullstepPerRev, getStepMode, getOCThreshold,
    getJogModeParams, getMaxModeParams, getKvalParams. keep.
Qed.

Lemma keeps_heap_setProp l k x : keeps_ratio (heap_setProp l k x).
Proof. unfold heap_setProp. keep. Qed.

Lemma keeps_heap_cloneDeep l : keeps_ratio (heap_cloneDeep l).
Proof. unfold heap_cloneDeep. keep. Qed.

#[local] Hint Resolve keeps_heap_setProp keeps_heap_cloneDeep : ratio.

Lemma keeps_sinusoid params cmdCallback streamCallback :
  keeps_ratio (sinusoid params cmdCallback streamCallback).
Proof. unfold sinusoid, cloneDeep. keep. Qed.

Lemma keeps_poll_status : keeps_ratio poll_status.
Proof. unfold poll_status, isBusy. keep. Qed.

#[local] Hint Resolve keeps_poll_status : ratio.

Lemma keeps_busyWait_body done : keeps_ratio (busyWait_body done).
Proof. unfold busyWait_body. keep. Qed.

Lemma keeps_busyWait_loop fuel done : keeps_ratio (busyWait_loop fuel done).
Proof.
  revert done. induction fuel as [|fuel IH]; intros [|]; cbn [busyWait_loop];
    try (intros w; reflexivity).
  apply keeps_bind; [keep|]. intros _.
  apply keeps_bind; [apply keeps_busyWait_body|]. intros done'. apply IH.
Qed.

Lemma keeps_busyWait fuel callback : keeps_ratio (busyWait fuel callback).
Proof.
  intros w. unfold busyWait. pose proof (keeps_busyWait_loop fuel false w) as H.
  destruct (busyWait_loop fuel false w) as [[u|e| |] w1]; cbn in *; try assumption.
  now destruct (call_keeps callback JNull JUndefined w1) as (_ & _ & _ & -> & _).
Qed.

Lemma keeps_autoset_step step msg promise w :
  keeps_ratio step ->
  gearRatio (snd (autoset_step step msg promise w)) = gearRatio w.
Proof.
  intros Hstep. unfold autoset_step.
  assert (H : keeps_ratio (rsp <- step ;; getProp rsp "success")) by keep.
  specialize (H w).
  destruct ((rsp <- step ;; getProp rsp "success") w) as [[s|e| |] w1];
    exact H.
Qed.

Lemma keeps_autoset_executor fuel w :
  gearRatio (snd (autoset_executor fuel w)) = gearRatio w.
Proof.
  unfold autoset_executor.
  pose proof (keeps_autoset_step (autosetPosition None)
                "autoset: set position failed" Pending w) as H1.
  destruct (autoset_step (autosetPosition None) _ Pending w) as [[p1 r1] w1].
  cbn [snd] in H1. rewrite <- H1 by apply keeps_simple.
  destruct r1; try reflexivity.
  pose proof (keeps_autoset_step (moveTo AUTOSET_POSITION_START_ANGLE None)
                "autoset: move to start position failed" p1 w1) as H2.
  destruct (autoset_step (moveTo _ None) _ p1 w1) as [[p2 r2] w2].
  cbn [snd] in H2. rewrite <- H2 by (unfold moveTo; keep).
  destruct r2; try reflexivity.
  pose proof (keeps_busyWait fuel None w2) as H3.
  destruct (busyWait fuel None w2) as [[v|e| |] w3]; cbn [snd] in *;
    rewrite <- H3; try reflexivity.
  apply keeps_autoset_step, keeps_simple.
Qed.

(** C9 (amended).  A new connection has gear ratio 1.0, which is not zero.
    [setGearRatio(g)] stores [g] as it is, zero included; every other
    operation leaves the gear ratio as it found it, however it ends. *)
Theorem gear_ratio_changed_by_setter_only fuel op w d h a :
  gearRatio (new_Autostep d h a) = num 1 /\
  is_zero (gearRatio (new_Autostep d h a)) = false /\
  gearRatio (perform fuel op w) =
    match op with
    | OpSetGearRatio g => g
    | _ => gearRatio w
    end.
Proof.
  split; [reflexivity|]. split; [reflexivity|].
  unfold perform.
  destruct op; cbn [method];
    first
      [ reflexivity
      | apply keeps_simple
      | apply keeps_with_arg
      | apply keeps_with_spread
      | apply keeps_sinusoid
      | apply keeps_busyWait
      | apply keeps_setFullstepPerRev
      | apply keeps_setParams_from
      | apply keeps_getParams
      | unfold run, moveTo, setPosition, getPosition, cloneDeep; keep; fail
      | idtac ].
  - unfold autosetPositionProcedure.
    pose proof (keeps_autoset_executor fuel w) as H.
    destruct (autoset_executor fuel w) as [[p r] w']. exact H.
  - cbn. now destruct (deliver_keeps sample w) as (_ & _ & -> & _).
Qed.

(** *** [autosetPositionProcedure] *)

Lemma autoset_step_unfulfilled step msg promise w :
  (forall v, promise <> Fulfilled v) ->
  forall v, fst (fst (autoset_step step msg promise w)) <> Fulfilled v.
Proof.
  intros Hp v. unfold autoset_step.
  destruct ((rsp <- step ;; getProp rsp "success") w) as [[s|e| |] w1];
    cbn [fst]; auto.
  destruct (negb (truthy s)); auto.
  destruct promise; cbn; try discriminate. apply Hp.
Qed.

Lemma autoset_executor_unfulfilled fuel w v :
  fst (fst (autoset_executor fuel w)) <> Fulfilled v.
Proof.
  unfold autoset_executor.
  pose proof (autoset_step_unfulfilled (autosetPosition None)
                "autoset: set position failed" Pending w) as H1.
  destruct (autoset_step (autosetPosition None) _ Pending w) as [[p1 r1] w1].
  cbn [fst] in H1.
  assert (Hp1 : forall v, p1 <> Fulfilled v) by (apply H1; discriminate).
  destruct r1; cbn [fst]; auto.
  pose proof (autoset_step_unfulfilled (moveTo AUTOSET_POSITION_START_ANGLE None)
                "autoset: move to start position failed" p1 w1 Hp1) as H2.
  destruct (autoset_step (moveTo _ None) _ p1 w1) as [[p2 r2] w2].
  cbn [fst] in H2.
  destruct r2; cbn [fst]; auto.
  destruct (busyWait fuel None w2) as [[u|e| |] w3]; cbn [fst]; auto.
  now apply autoset_step_unfulfilled.
Qed.

(** C10.  [autosetPositionProcedure] returns [undefined] whatever happens,
    and ignores its callback; the promise it builds inside is never
    resolved: it is pending or rejected when the executor stops, so it is
    pending after a run in which no step failed. *)
Theorem autosetPositionProcedure_returns_undefined fuel callback w :
  fst (fst (autosetPositionProcedure fuel callback w)) = JUndefined /\
  (forall v, snd (fst (autosetPositionProcedure fuel callback w)) <> Fulfilled v) /\
  ((forall e, snd (fst (autosetPositionProcedure fuel callback w)) <> Rejected e) ->
   snd (fst (autosetPositionProcedure fuel callback w)) = Pending) /\
  autosetPositionProcedure fuel callback w = autosetPositionProcedure fuel None w.
Proof.
  unfold autosetPositionProcedure.
  pose proof (autoset_executor_unfulfilled fuel w) as H.
  destruct (autoset_executor fuel w) as [[p r] w']. cbn [fst snd] in *.
  repeat split; auto.
  intros Hrej. destruct p; [reflexivity| |]; exfalso; [eapply H|eapply Hrej]; eauto.
Qed.

(** *** The stream callback *)

(** C2.  A stream sample that is empty or comes with an error deactivates
    the session: [sinusoidRunning] is false afterwards and stays false under
    further samples, and the next poll of [busyWait] sends its status
    command as an ordinary request.  The sample still reaches the caller's
    callback. *)
Theorem terminating_sample_deactivates captured err data w :
  isEmpty data = true \/ truthy err = true ->
  let w' := streamCallbackWrapped captured err data w in
  sinusoidRunning w' = false /\
  (forall samples,
     sinusoidRunning (fold_left (fun acc s => deliver s acc) samples w') = false) /\
  (forall done, busyWait_body done w' = poll_status w') /\
  calls w' = calls (call captured err data w).
Proof.
  intros Hterm w'.
  assert (Hoff : sinusoidRunning w' = false).
  { subst w'. unfold streamCallbackWrapped.
    assert (Hc : truthy err || isEmpty data = true).
    { destruct Hterm as [-> | ->]; [apply orb_true_r|reflexivity]. }
    rewrite Hc. now destruct captured. }
  split; [exact Hoff|]. split.
  - intros samples. now apply (deliver_all_keeps samples w').
  - split.
    + intros done. now apply busyWait_body_idle.
    + subst w'. unfold streamCallbackWrapped.
      destruct (truthy err || isEmpty data), captured; reflexivity.
Qed.

(** *** [_sendCmd] *)

(** C7.  When the reply line does not parse, the promise of [_sendCmd] is
    rejected with the parse failure (the later [resolve] changes nothing),
    the caller's await throws it, and the connection is left ready: the next
    command is sent and answered as usual.  A reply that parses is returned
    as a value whatever its [success] field says. *)
Theorem malformed_reply_rejects cmd callback w o d' :
  respond (stringify cmd) (dev w) = (o, d') ->
  truthy (d_err o) = false ->
  parse (d_rsp o) = None ->
  let failure := syntax_error (d_rsp o) in
  let w' := call callback failure JNull (exchanged cmd o d' w) in
  sendCmd_callback o Pending = Rejected failure /\
  _sendCmd cmd callback w = (Throw failure, w') /\
  dev w' = d' /\
  (forall cmd2 callback2 o2 d2 v,
     answers cmd2 w' o2 d2 v ->
     _sendCmd cmd2 callback2 w' =
       (Ret v, call callback2 JNull v (exchanged cmd2 o2 d2 w'))) /\
  (forall w0 cmd2 callback2 o2 d2 fs,
     answers cmd2 w0 o2 d2 (JObj fs) ->
     truthy (field "success" fs) = false ->
     _sendCmd cmd2 callback2 w0 =
       (Ret (JObj fs), call callback2 JNull (JObj fs) (exchanged cmd2 o2 d2 w0))).
Proof.
  intros Hr He Hp failure w'.
  assert (Hcb : sendCmd_callback o Pending = Rejected failure).
  { unfold sendCmd_callback. now rewrite He, Hp. }
  split; [exact Hcb|]. split.
  { unfold _sendCmd, device_sendCmd. cbn. rewrite Hr. cbn [fst snd].
    rewrite Hcb. reflexivity. }
  split.
  { subst w'. now destruct (call_keeps callback failure JNull (exchanged cmd o d' w))
      as (_ & -> & _). }
  split.
  - intros. now apply sendCmd_reply.
  - intros. now apply sendCmd_reply.
Qed.

(** *** [getParams] *)

Lemma mapping_exchange cmd w :
  answers_mappings -> exists o d' fs, answers cmd w o d' (JObj fs).
Proof.
  intros H. destruct (H (stringify cmd) (dev w)) as (He & fs & Hp).
  destruct (respond (stringify cmd) (dev w)) as [o d'] eqn:Hr.
  exists o, d', fs. repeat split; assumption.
Qed.


Lemma bind_ret A B (m : M A) (f : A -> M B) w a w' :
  m w = (Ret a, w') -> bind m f w = f a w'.
Proof. intros H. unfold bind. now rewrite H. Qed.

Lemma bind_get A B (f : World -> A) (k : A -> M B) w :
  bind (get f) k w = k (f w) w.
Proof. reflexivity. Qed.

Lemma bind_modify B (f : World -> World) (k : unit -> M B) w :
  bind (modify f) k w = k tt (f w).
Proof. reflexivity. Qed.

Lemma bind_getProp_obj B fs k (f : JValue -> M B) w :
  bind (getProp (JObj fs) k) f w = f (field k fs) w.
Proof. reflexivity. Qed.

Lemma bind_setProp_obj B fs k x (f : JValue -> M B) w :
  bind (setProp (JObj fs) k x) f w = f (JObj (set k x fs)) w.
Proof. reflexivity. Qed.




(** *** [setParams] *)

Lemma setterMethod_sends s value :
  applicable (s, value) ->
  setterMethod s value = _sendCmd (setter_cmd s value) None.
Proof.
  destruct s; cbn; intros H; try reflexivity.
  destruct H as [n ->]. reflexivity.
Qed.

Lemma setParams_from_short_circuit table fs w :
  answers_mappings ->
  Forall applicable (selected table fs) ->
  exists k os rs r w',
    setParams_from table (JObj fs) w = (Ret r, w') /\
    sent w' = sent w ++ firstn k (selected_cmds table fs) /\
    k <= length (selected table fs) /\
    received w' = received w ++ os /\
    map (fun o => parse (d_rsp o)) os = map (fun reply => Some (JObj reply)) rs /\
    length rs = k /\
    ((Forall succeeded rs /\ k = length (selected table fs) /\
      r = JObj [("success", JBool true)]) \/
     (exists pre last,
        rs = pre ++ [last] /\ Forall succeeded pre /\
        truthy (field "success" last) = false /\ r = JObj last)).
Proof.
  intros Hmap. revert w.
  induction table as [|[paramName setter] rest IH]; intros w Happ.
  - exists 0, [], [], (JObj [("success", JBool true)]), w. cbn.
    rewrite !app_nil_r. repeat split; auto.
  - cbn [setParams_from]. rewrite bind_getProp_obj.
    unfold selected_cmds, selected in *. cbn [flat_map fst snd] in *.
    destruct (truthy (field paramName fs)) eqn:Htruthy.
    2:{ cbn [app] in *. apply IH, Happ. }
    cbn [app map length] in *.
    inversion Happ as [|sv svs Hfirst Hrest]; subst.
    rewrite (setterMethod_sends _ _ Hfirst).
    set (cmd := setter_cmd setter (field paramName fs)).
    destruct (mapping_exchange cmd w Hmap) as (o & d' & reply & Hans).
    rewrite (bind_ret _ _ _ _ _ _ _ (sendCmd_reply_plain _ _ _ _ _ Hans)).
    rewrite bind_getProp_obj.
    destruct Hans as (_ & _ & Hparse).
    destruct (truthy (field "success" reply)) eqn:Hsucc; cbn [negb].
    + destruct (IH (exchanged cmd o d' w) Hrest)
        as (k & os & rs & r & w' & Hrun & Hsent & Hk & Hrecv & Hparsed & Hlen & Hend).
      exists (S k), (o :: os), (reply :: rs), r, w'.
      split; [exact Hrun|].
      split. { rewrite Hsent. cbn. now rewrite <- app_assoc. }
      split. { lia. }
      split. { rewrite Hrecv. cbn. now rewrite <- app_assoc. }
      split. { cbn. now rewrite Hparse, Hparsed. }
      split. { cbn. now rewrite Hlen. }
      destruct Hend as [(Hall & Hfull & Hr) | (pre & last & Hrs & Hpre & Hlast & Hr)].
      * left. repeat split; auto.
      * right. exists (reply :: pre), last. subst rs.
        repeat split; auto.
    + exists 1, [o], [reply], (JObj reply), (exchanged cmd o d' w).
      split; [reflexivity|].
      split. { reflexivity. }
      split. { lia. }
      split. { reflexivity. }
      split. { cbn. now rewrite Hparse. }
      split. { reflexivity. }
      right. exists [], reply. repeat split; auto.
Qed.

Lemma selected_applicable table fs :
  (forall name, In (name, SetFullstepPerRev) table ->
     truthy (field name fs) = true -> exists n, field name fs = JNum n) ->
  Forall applicable (selected table fs).
Proof.
  induction table as [|[name setter] rest IH]; intros H; cbn; [constructor|].
  destruct (truthy (field name fs)) eqn:Htruthy; cbn.
  - constructor.
    + unfold applicable. cbn. destruct setter; auto.
      apply H; [now left|assumption].
    + apply IH. intros n Hin. apply H. now right.
  - apply IH. intros n Hin. apply H. now right.
Qed.

Lemma setParams_from_throws_at_toFixed rest fs w :
  truthy (field "fullstepPerRev" fs) = true ->
  (forall n, field "fullstepPerRev" fs <> JNum n) ->
  setParams_from (("fullstepPerRev", SetFullstepPerRev) :: rest) (JObj fs) w =
    (Throw (type_error "toFixed"), w).
Proof.
  intros Htruthy Hnot. cbn [setParams_from].
  rewrite bind_getProp_obj, Htruthy. cbn [setterMethod].
  destruct (field "fullstepPerRev" fs) eqn:E; try reflexivity.
  now destruct (Hnot n).
Qed.

(** C3 (amended).  On a device that answers every command with a mapping,
    [setParams] goes through the six setters in the declared order and
    applies those whose field of [params] holds a truthy value (a field that
    is absent, or present with a falsy value such as 0, is skipped).  When
    [fullstepPerRev] is truthy and not a number, the first setter throws and
    nothing is sent.  Otherwise the commands sent are a prefix of the
    commands of these setters: either every reply succeeded, all were sent
    and the result is [{success: true}], or the last command sent is the
    first whose reply has a falsy [success], and that reply is the result. *)
Theorem setParams_applies_truthy_fields_until_failure fs w :
  answers_mappings ->
  map fst paramSetters =
    ["fullstepPerRev"; "stepMode"; "threshold"; "jogMode"; "maxMode"; "kval"] /\
  (truthy (field "fullstepPerRev" fs) = true /\
   (forall n, field "fullstepPerRev" fs <> JNum n) ->
   setParams (JObj fs) w = (Throw (type_error "toFixed"), w)) /\
  ((truthy (field "fullstepPerRev" fs) = true ->
    exists n, field "fullstepPerRev" fs = JNum n) ->
   exists k os rs r w',
     setParams (JObj fs) w = (Ret r, w') /\
     sent w' = sent w ++ firstn k (selected_cmds paramSetters fs) /\
     k <= length (selected paramSetters fs) /\
     received w' = received w ++ os /\
     map (fun o => parse (d_rsp o)) os = map (fun reply => Some (JObj reply)) rs /\
     length rs = k /\
     ((Forall succeeded rs /\ k = length (selected paramSetters fs) /\
       r = JObj [("success", JBool true)]) \/
      (exists pre last,
         rs = pre ++ [last] /\ Forall succeeded pre /\
         truthy (field "success" last) = false /\ r = JObj last))).
Proof.
  intros Hmap. split; [reflexivity|]. split.
  { intros (Htruthy & Hnot). now apply setParams_from_throws_at_toFixed. }
  intros Hnum.
  apply setParams_from_short_circuit; [exact Hmap|].
  apply selected_applicable. intros name Hin.
  cbn in Hin.
  destruct Hin as [Hin|[Hin|[Hin|[Hin|[Hin|[Hin|[]]]]]]]; inversion Hin; subst.
  exact Hnum.
Qed.

(** *** Objects *)

Lemma has_key_lookup k fs : has_key k fs = false -> lookup k fs = None.
Proof. unfold has_key. now destruct (lookup k fs). Qed.

Lemma lookup_overwrite_same k v fs :
  has_key k fs = true -> lookup k (overwrite k v fs) = Some v.
Proof.
  unfold has_key. induction fs as [|[k' v'] rest IH]; cbn; [discriminate|].
  destruct (String.eqb k k') eqn:E; cbn.
  - now rewrite String.eqb_refl.
  - now rewrite E.
Qed.

Lemma lookup_overwrite_other k k' v fs :
  String.eqb k k' = false -> lookup k (overwrite k' v fs) = lookup k fs.
Proof.
  intros Hne. induction fs as [|[k0 v0] rest IH]; cbn; [reflexivity|].
  destruct (String.eqb k' k0) eqn:E; cbn.
  - apply String.eqb_eq in E. subst k0. now rewrite Hne.
  - now rewrite IH.
Qed.

Lemma lookup_insert_same n k v fs :
  lookup k fs = None -> lookup k (insert_index n k v fs) = Some v.
Proof.
  induction fs as [|[k' v'] rest IH]; cbn.
  - now rewrite String.eqb_refl.
  - destruct (String.eqb k k') eqn:E; [discriminate|]. intros Hnone.
    destruct (is_index k') as [n'|]; [destruct (n <? n')%N|]; cbn;
      rewrite ?String.eqb_refl, ?E; auto.
Qed.

Lemma lookup_insert_other n k k' v fs :
  String.eqb k k' = false -> lookup k (insert_index n k' v fs) = lookup k fs.
Proof.
  intros Hne. induction fs as [|[k0 v0] rest IH]; cbn.
  - now rewrite Hne.
  - destruct (is_index k0) as [n0|]; [destruct (n <? n0)%N|]; cbn;
      rewrite ?Hne; try reflexivity.
    now rewrite IH.
Qed.

Lemma lookup_app_other k k' v fs :
  String.eqb k k' = false -> lookup k (fs ++ [(k', v)]) = lookup k fs.
Proof.
  intros Hne. induction fs as [|[k0 v0] rest IH]; cbn.
  - now rewrite Hne.
  - now rewrite IH.
Qed.

Lemma lookup_app_same k v fs :
  lookup k fs = None -> lookup k (fs ++ [(k, v)]) = Some v.
Proof.
  induction fs as [|[k0 v0] rest IH]; cbn.
  - now rewrite String.eqb_refl.
  - destruct (String.eqb k k0); [discriminate|exact IH].
Qed.

Lemma lookup_set_same k v fs : lookup k (set k v fs) = Some v.
Proof.
  unfold set. destruct (has_key k fs) eqn:E.
  - now apply lookup_overwrite_same.
  - apply has_key_lookup in E. destruct (is_index k).
    + now apply lookup_insert_same.
    + now apply lookup_app_same.
Qed.

Lemma lookup_set_other k k' v fs :
  String.eqb k k' = false -> lookup k (set k' v fs) = lookup k fs.
Proof.
  intros Hne. unfold set. destruct (has_key k' fs).
  - now apply lookup_overwrite_other.
  - destruct (is_index k').
    + now apply lookup_insert_other.
    + now apply lookup_app_other.
Qed.

Lemma field_set_same k v fs : field k (set k v fs) = v.
Proof. unfold field. now rewrite lookup_set_same. Qed.

Lemma field_set_other k k' v fs :
  String.eqb k k' = false -> field k (set k' v fs) = field k fs.
Proof. intros H. unfold field. now rewrite lookup_set_other. Qed.

(** *** [moveTo] and [getPosition] *)


(** *** The heap *)

Lemma nth_error_last A (h : list A) x : nth_error (h ++ [x]) (length h) = Some x.
Proof. induction h; cbn; auto. Qed.

Lemma update_nth_last A (h : list A) x y :
  update_nth (length h) y (h ++ [x]) = h ++ [y].
Proof. induction h as [|a h IH]; cbn; [reflexivity|now rewrite IH]. Qed.

Lemma nth_error_before A (h : list A) x l :
  l < length h -> nth_error (h ++ [x]) l = nth_error h l.
Proof. intros H. now apply nth_error_app1. Qed.

Lemma heap_cloneDeep_run l fs w :
  nth_error (heap w) l = Some fs ->
  heap_cloneDeep l w = (Ret (length (heap w)), set_heap (heap w ++ [fs]) w).
Proof.
  intros H. unfold heap_cloneDeep, heap_read, bind. rewrite H. reflexivity.
Qed.

Lemma heap_read_last h x w :
  heap w = h ++ [x] -> heap_read (length h) w = (Ret x, w).
Proof. intros H. unfold heap_read. now rewrite H, nth_error_last. Qed.

Lemma heap_setProp_last h x k v w :
  heap w = h ++ [x] ->
  heap_setProp (length h) k v w = (Ret tt, set_heap (h ++ [set k v x]) w).
Proof.
  intros H. unfold heap_setProp.
  rewrite (bind_ret _ _ _ _ _ _ _ (heap_read_last _ _ _ H)).
  unfold modify. now rewrite H, update_nth_last.
Qed.

(** *** Object spread *)

Lemma lookup_spread k fs base :
  NoDup (map fst fs) ->
  lookup k (fold_left (fun acc kv => set (fst kv) (snd kv) acc) fs base) =
  match lookup k fs with
  | Some v => Some v
  | None => lookup k base
  end.
Proof.
  revert base. induction fs as [|[k0 v0] rest IH]; intros base Hnd; cbn.
  - reflexivity.
  - inversion Hnd as [|? ? Hnotin Hrest]; subst.
    rewrite (IH _ Hrest).
    destruct (String.eqb k k0) eqn:E.
    + apply String.eqb_eq in E. subst k0.
      assert (Hnone : lookup k rest = None).
      { clear -Hnotin. induction rest as [|[k1 v1] rest IH]; cbn; [reflexivity|].
        destruct (String.eqb k k1) eqn:E.
        - apply String.eqb_eq in E. subst. exfalso. apply Hnotin. now left.
        - apply IH. intros Hin. apply Hnotin. now right. }
      rewrite Hnone. apply lookup_set_same.
    + destruct (lookup k rest); [reflexivity|].
      now apply lookup_set_other.
Qed.

Lemma has_key_In k fs : has_key k fs = false -> ~ In k (map fst fs).
Proof.
  unfold has_key. induction fs as [|[k0 v0] rest IH]; cbn; [tauto|].
  destruct (String.eqb k k0) eqn:E; [discriminate|].
  intros H [Heq|Hin]; [|now apply IH].
  subst. now rewrite String.eqb_refl in E.
Qed.

Lemma keys_overwrite k v fs : map fst (overwrite k v fs) = map fst fs.
Proof.
  induction fs as [|[k0 v0] rest IH]; cbn; [reflexivity|].
  destruct (String.eqb k k0) eqn:E; cbn.
  - apply String.eqb_eq in E. now subst.
  - now rewrite IH.
Qed.

Lemma keys_insert_index n k v fs x :
  In x (map fst (insert_index n k v fs)) <-> x = k \/ In x (map fst fs).
Proof.
  induction fs as [|[k0 v0] rest IH]; cbn.
  - intuition.
  - destruct (is_index k0) as [n0|]; [destruct (n <? n0)%N|]; cbn;
      rewrite ?IH; intuition.
Qed.

Lemma NoDup_insert_index n k v fs :
  ~ In k (map fst fs) -> NoDup (map fst fs) ->
  NoDup (map fst (insert_index n k v fs)).
Proof.
  induction fs as [|[k0 v0] rest IH]; cbn; intros Hnotin Hnd.
  - constructor; [tauto|constructor].
  - inversion Hnd as [|? ? Hk0 Hrest]; subst.
    destruct (is_index k0) as [n0|]; [destruct (n <? n0)%N|]; cbn.
    + constructor; [exact Hnotin|exact Hnd].
    + constructor.
      * rewrite keys_insert_index. intros [->|Hin]; tauto.
      * apply IH; tauto.
    + constructor; [exact Hnotin|exact Hnd].
Qed.

Lemma NoDup_set k v fs : NoDup (map fst fs) -> NoDup (map fst (set k v fs)).
Proof.
  intros H. unfold set. destruct (has_key k fs) eqn:E.
  - now rewrite keys_overwrite.
  - pose proof (has_key_In _ _ E) as Hnotin. destruct (is_index k).
    + now apply NoDup_insert_index.
    + rewrite map_app. apply NoDup_app; [exact H|constructor; [tauto|constructor]|].
      intros a Ha [<-|[]]. now apply Hnotin.
Qed.

Lemma field_spread k fs base :
  NoDup (map fst fs) ->
  field k (spread base (JObj fs)) =
  match lookup k fs with
  | Some v => v
  | None => field k base
  end.
Proof.
  intros H. unfold field, spread. cbn [own_fields].
  rewrite (lookup_spread _ _ _ H). now destruct (lookup k fs).
Qed.

(** *** [sinusoid] *)

Lemma sinusoid_run params cmdCallback streamCb w fs o d' reply :
  nth_error (heap w) params = Some fs ->
  NoDup (map fst fs) ->
  let g := gearRatio w in
  let paramsAdj :=
    set "offset" (js_mul (field "offset" fs) g)
      (set "amplitude" (js_mul (field "amplitude" fs) g) fs) in
  let cmd := spread (command "sinusoid") (JObj paramsAdj) in
  answers (JObj cmd) w o d' (JObj reply) ->
  exists rsp w',
    sinusoid params cmdCallback streamCb w = (Ret (JObj rsp), w') /\
    sent w' = sent w ++ [JObj cmd] /\
    field "amplitude" cmd = js_mul (field "amplitude" fs) g /\
    field "offset" cmd = js_mul (field "offset" fs) g /\
    (has_key "command" fs = false -> field "command" cmd = JStr "sinusoid") /\
    sinusoidRunning w' = true /\
    streamCallback w' = Some streamCb /\
    field "amplitude" rsp = js_div (field "amplitude" reply) g /\
    field "offset" rsp = js_div (field "offset" reply) g /\
    (forall k, String.eqb k "amplitude" = false -> String.eqb k "offset" = false ->
       field k rsp = field k reply) /\
    nth_error (heap w') params = Some fs /\
    (forall l, l < length (heap w) -> nth_error (heap w') l = nth_error (heap w) l).
Proof.
  intros Hparams Hnd g paramsAdj cmd Hans.
  set (fs1 := set "amplitude" (js_mul (field "amplitude" fs) g) fs).
  assert (Hoff : field "offset" fs1 = field "offset" fs)
    by (apply field_set_other; reflexivity).
  set (h := heap w).
  set (wa := set_heap (h ++ [fs]) w).
  set (wb := set_heap (h ++ [fs1]) wa).
  set (wc := set_heap (h ++ [paramsAdj]) wb).
  set (wd := set_sinusoidRunning true (set_streamCallback (Some streamCb) wc)).
  set (rsp := set "offset" (js_div (field "offset" reply) g)
                (set "amplitude" (js_div (field "amplitude" reply) g) reply)).
  exists rsp, (call cmdCallback JNull (JObj reply) (exchanged (JObj cmd) o d' wd)).
  split.
  { unfold sinusoid, cloneDeep.
    rewrite (bind_ret _ _ _ _ _ _ _ (heap_cloneDeep_run _ _ _ Hparams)).
    fold h. fold wa.
    rewrite (bind_ret _ _ _ _ _ _ _ (heap_read_last h fs wa eq_refl)).
    rewrite bind_get.
    rewrite (bind_ret _ _ _ _ _ _ _ (heap_setProp_last h fs _ _ wa eq_refl)).
    change (gearRatio wa) with g. fold fs1. fold wb.
    rewrite (bind_ret _ _ _ _ _ _ _ (heap_read_last h fs1 wb eq_refl)).
    rewrite bind_get.
    rewrite (bind_ret _ _ _ _ _ _ _ (heap_setProp_last h fs1 _ _ wb eq_refl)).
    change (gearRatio wb) with g. rewrite Hoff. fold paramsAdj. fold wc.
    rewrite (bind_ret _ _ _ _ _ _ _ (heap_read_last h paramsAdj wc eq_refl)).
    rewrite !bind_modify. fold cmd. fold wd.
    assert (Hans' : answers (JObj cmd) wd o d' (JObj reply))
      by (apply (answers_same_dev _ w); [reflexivity|exact Hans]).
    rewrite (bind_ret _ _ _ _ _ _ _ (sendCmd_reply _ _ _ _ _ _ Hans')).
    rewrite bind_getProp_obj, bind_get.
    destruct (call_keeps cmdCallback JNull (JObj reply) (exchanged (JObj cmd) o d' wd))
      as (_ & _ & _ & Hg & _).
    rewrite Hg. change (gearRatio (exchanged (JObj cmd) o d' wd)) with g.
    rewrite bind_setProp_obj, bind_getProp_obj, bind_get, Hg.
    change (gearRatio (exchanged (JObj cmd) o d' wd)) with g.
    rewrite field_set_other by reflexivity.
    rewrite bind_setProp_obj. reflexivity. }
  destruct (call_keeps cmdCallback JNull (JObj reply) (exchanged (JObj cmd) o d' wd))
    as (Hrun & _ & Hsent & _ & Hheap).
  assert (Hnd1 : NoDup (map fst paramsAdj)) by (do 2 apply NoDup_set; exact Hnd).
  split. { rewrite Hsent. reflexivity. }
  split. { unfold cmd. rewrite (field_spread _ _ _ Hnd1). unfold paramsAdj.
           rewrite lookup_set_other by reflexivity. now rewrite lookup_set_same. }
  split. { unfold cmd. rewrite (field_spread _ _ _ Hnd1). unfold paramsAdj.
           now rewrite lookup_set_same. }
  split. { intros Hno. unfold cmd. rewrite (field_spread _ _ _ Hnd1). unfold paramsAdj.
           rewrite !lookup_set_other by reflexivity.
           unfold has_key in Hno. now destruct (lookup "command" fs). }
  split. { rewrite Hrun. reflexivity. }
  split. { now destruct cmdCallback. }
  split. { unfold rsp. rewrite field_set_other by reflexivity. apply field_set_same. }
  split. { apply field_set_same. }
  split. { intros k Ha Ho. unfold rsp. now rewrite !field_set_other. }
  rewrite Hheap. cbn [exchanged set_received set_dev set_sent heap wd wc
                      set_sinusoidRunning set_streamCallback set_heap].
  assert (Hlt : params < length h).
  { apply nth_error_Some. fold h in Hparams. now rewrite Hparams. }
  split.
  - rewrite nth_error_before by exact Hlt. exact Hparams.
  - intros l Hl. now apply nth_error_before.
Qed.

(** C6.  [sinusoid(params)] sends [{command: 'sinusoid', ...paramsAdj}] where
    [paramsAdj] is a copy of [params] with [amplitude] and [offset] replaced
    by their double products with the gear ratio, marks the session active,
    and returns the acknowledgement with [amplitude] and [offset] replaced
    by their double quotients by the gear ratio.  The caller's [params], and
    every object that was on the heap, is left as it was. *)
Theorem sinusoid_scales_and_clones params cmdCallback streamCb w fs o d' reply :
  nth_error (heap w) params = Some fs ->
  NoDup (map fst fs) ->
  let g := toNumber (gearRatio w) in
  let times (v : JValue) := JNum (SFmul prec emax (toNumber v) g) in
  let over (v : JValue) := JNum (SFdiv prec emax (toNumber v) g) in
  let paramsAdj :=
    set "offset" (times (field "offset" fs))
      (set "amplitude" (times (field "amplitude" fs)) fs) in
  let cmd := spread (command "sinusoid") (JObj paramsAdj) in
  answers (JObj cmd) w o d' (JObj reply) ->
  exists rsp w',
    sinusoid params cmdCallback streamCb w = (Ret (JObj rsp), w') /\
    sent w' = sent w ++ [JObj cmd] /\
    field "amplitude" cmd = times (field "amplitude" fs) /\
    field "offset" cmd = times (field "offset" fs) /\
    (forall k v, lookup k fs = Some v ->
       String.eqb k "amplitude" = false -> String.eqb k "offset" = false ->
       field k cmd = v) /\
    (has_key "command" fs = false -> field "command" cmd = JStr "sinusoid") /\
    sinusoidRunning w' = true /\
    streamCallback w' = Some streamCb /\
    field "amplitude" rsp = over (field "amplitude" reply) /\
    field "offset" rsp = over (field "offset" reply) /\
    (forall k, String.eqb k "amplitude" = false -> String.eqb k "offset" = false ->
       field k rsp = field k reply) /\
    nth_error (heap w') params = Some fs /\
    (forall l, l < length (heap w) -> nth_error (heap w') l = nth_error (heap w) l).
Proof.
  intros Hparams Hnd g times over paramsAdj cmd Hans.
  destruct (sinusoid_run params cmdCallback streamCb w fs o d' reply Hparams Hnd Hans)
    as (rsp & w' & Hrun & Hsent & Hamp & Hoff & Hcmd & Hact & Hreg & Hramp
        & Hroff & Hrest & Hheap & Hframe).
  exists rsp, w'.
  split; [exact Hrun|]. split; [exact Hsent|]. split; [exact Hamp|].
  split; [exact Hoff|]. split.
  { intros k v Hk Ha Ho. unfold cmd.
    assert (Hnd1 : NoDup (map fst paramsAdj)) by (do 2 apply NoDup_set; exact Hnd).
    rewrite (field_spread _ _ _ Hnd1). unfold paramsAdj.
    now rewrite !lookup_set_other, Hk by assumption. }
  repeat split; assumption.
Qed.

(** *** The busy-poll coordinator during a stream *)

(** While [sinusoidRunning] holds at a tick, the body sends nothing and
    leaves [done] as it was: the inner test of the same flag cannot
    succeed. *)
Lemma busyWait_body_streaming done w :
  sinusoidRunning w = true -> busyWait_body done w = (Ret done, w).
Proof.
  intros H. unfold busyWait_body, bind, get. rewrite H. cbv beta iota.
  rewrite H. reflexivity.
Qed.

End Properties.

(** ** Runs on the bench *)

Module Runs.

Import Bench.

(** C1.  The demo run: after the sinusoid command the session is active.
    The first tick sends nothing.  The stream ends during the second delay,
    and that tick sends [is_busy] and leaves the wait unresolved; the wait
    resolves at the third tick only, after a second [is_busy]. *)
Theorem busyWait_polls_after_stream_end :
  sinusoidRunning streaming = true /\
  (let '(r, w) := busyWait (device := strict) 1 None streaming in
   r = OutOfFuel /\ sinusoidRunning w = true /\ sent w = sent streaming) /\
  (let '(r, w) := busyWait (device := strict) 2 None streaming in
   r = OutOfFuel /\ sinusoidRunning w = false /\
   sent w = sent streaming ++ [is_busy_cmd]) /\
  (let '(r, w) := busyWait (device := strict) 3 None streaming in
   r = Ret JUndefined /\
   sent w = sent streaming ++ [is_busy_cmd; is_busy_cmd]).
Proof. vm_compute. repeat split. Qed.

(** A field that is present with a falsy value is skipped; and a truthy
    [fullstepPerRev] that is not a number makes the call throw before the
    truthy [threshold] next to it is applied. *)
Lemma setParams_skips_present_falsy_field :
  let params := [("threshold", num 0)] in
  has_key "threshold" params = true /\
  setParams (device := tolerant) (JObj params) (lax ["ok"]) =
    (Ret (JObj [("success", JBool true)]), lax ["ok"]) /\
  sent (lax ["ok"]) = [] /\
  setParams (device := tolerant)
    (JObj [("fullstepPerRev", JStr "200"); ("threshold", num 3)]) (lax ["ok"]) =
    (Throw (type_error "toFixed"), lax ["ok"]).
Proof. vm_compute. repeat split. Qed.


(** With gear ratio 3, 0.1 goes out as 0.30000000000000004 and comes back as
    0.10000000000000002, the double next to 0.1. *)
Example moveTo_getPosition_rounds :
  num_mul (of_Q (1 # 10)) (of_Q 3) = S754_finite false 5404319552844596 (-54) /\
  num_div (num_mul (of_Q (1 # 10)) (of_Q 3)) (of_Q 3)
    = S754_finite false 7205759403792795 (-56) /\
  of_Q (1 # 10) = S754_finite false 7205759403792794 (-56).
Proof. vm_compute. repeat split. Qed.

(** [setGearRatio(0)] makes the gear ratio zero, and [getPosition] then
    divides by it. *)
Lemma setGearRatio_accepts_zero :
  let w := perform (device := strict) 0 (OpSetGearRatio (num 0)) (fresh ["at 6"]) in
  is_zero (device := strict) (gearRatio (fresh ["at 6"])) = false /\
  is_zero (device := strict) (gearRatio w) = true /\
  fst (getPosition (device := strict) None w) =
    Ret (JObj (ok ++ [("position", JNum (NInf false))])).
Proof. vm_compute. repeat split. Qed.

(** The scenario of the setter test: the second setter fails, the third is
    never called. *)
Example setParams_stops_at_first_failure :
  let '(r, w) := setParams (device := tolerant) (JObj three_params)
                           (lax ["ok"; "fail"; "ok"]) in
  r = Ret (JObj failed) /\
  sent w =
    [ JObj [("command", JStr "set_fullstep_per_rev"); ("fullstep_per_rev", num 200)];
      JObj [("command", JStr "set_step_mode"); ("step_mode", JStr "bad")] ] /\
  dev w = ["ok"].
Proof. vm_compute. repeat split. Qed.

(** When every step of the autoset procedure succeeds the internal promise
    is still pending at the end; when the first step fails it is rejected,
    and the executor goes on to send the remaining commands. *)
Example autoset_all_steps_succeed :
  let '(v, promise, w) :=
    autosetPositionProcedure (device := strict) 2 None
                             (fresh ["ok"; "ok"; "idle"; "ok"]) in
  v = JUndefined /\ promise = Pending /\ length (sent w) = 4 /\ dev w = [].
Proof. vm_compute. repeat split. Qed.

Example autoset_first_step_fails :
  let '(v, promise, w) :=
    autosetPositionProcedure (device := strict) 2 None
                             (fresh ["fail"; "ok"; "idle"; "ok"]) in
  v = JUndefined /\
  promise = Rejected (JStr "autoset: set position failed") /\
  length (sent w) = 4.
Proof. vm_compute. repeat split. Qed.

Lemma tolerant_answers_mappings : answers_mappings (device := tolerant).
Proof.
  intros cmd [|l rest]; cbn; (split; [reflexivity|]); unfold lenient.
  - eexists. reflexivity.
  - destruct (String.eqb l "fail"); eexists; reflexivity.
Defined.


Lemma terminating_sample_deactivates_witness :
  sinusoidRunning (streamCallbackWrapped (device := strict) None JNull (JObj []) streaming)
    = false.
Proof.
  exact (proj1 (terminating_sample_deactivates (device := strict) None JNull
                  (JObj []) streaming (or_introl eq_refl))).
Defined.

Lemma malformed_reply_rejects_witness :
  _sendCmd (device := strict) (JObj (command "enable")) None (fresh ["junk"]) =
    (Throw (syntax_error "junk"),
     exchanged (device := strict) (JObj (command "enable"))
               (mkOutcome JNull "junk") [] (fresh ["junk"])).
Proof.
  exact (proj1 (proj2 (malformed_reply_rejects (device := strict)
                         (JObj (command "enable")) None (fresh ["junk"])
                         (mkOutcome JNull "junk") [] eq_refl eq_refl eq_refl))).
Defined.


Lemma setParams_applies_truthy_fields_until_failure_witness :
  (exists r w',
     setParams (device := tolerant) (JObj three_params) (lax ["ok"; "fail"; "ok"])
       = (Ret r, w') /\
     length (sent w') <= 3) /\
  setParams (device := tolerant)
    (JObj [("fullstepPerRev", JStr "200"); ("threshold", num 3)]) (lax ["ok"])
    = (Throw (type_error "toFixed"), lax ["ok"]).
Proof.
  split.
  - destruct (proj2 (proj2 (setParams_applies_truthy_fields_until_failure
                              (device := tolerant) three_params
                              (lax ["ok"; "fail"; "ok"]) tolerant_answers_mappings))
                (fun _ => ex_intro _ (of_Q 200) eq_refl))
      as (k & os & rs & r & w' & Hrun & Hsent & Hk & _).
    exists r, w'. split; [exact Hrun|].
    rewrite Hsent. cbn [sent lax new_Autostep app]. rewrite length_firstn.
    cbn in Hk. lia.
  - apply (proj1 (proj2 (setParams_applies_truthy_fields_until_failure
                           (device := tolerant)
                           [("fullstepPerRev", JStr "200"); ("threshold", num 3)]
                           (lax ["ok"]) tolerant_answers_mappings))).
    split; [reflexivity|]. intros n. discriminate.
Defined.

Lemma demo_params_distinct : NoDup (map fst demo_params).
Proof.
  repeat (constructor; [cbn; intuition discriminate|]). constructor.
Defined.


Lemma wave_params_distinct : NoDup (map fst wave_params).
Proof.
  repeat (constructor; [cbn; intuition discriminate|]). constructor.
Defined.

Lemma sinusoid_scales_and_clones_witness :
  exists cmd rsp w',
    sinusoid (device := strict) 0 None None geared_wave = (Ret (JObj rsp), w') /\
    sent w' = [JObj cmd] /\
    field "amplitude" cmd = num 180 /\
    field "offset" cmd = num 20 /\
    field "amplitude" rsp = num 90 /\
    field "offset" rsp = num 10 /\
    sinusoidRunning w' = true /\
    nth_error (heap w') 0 = Some wave_params.
Proof.
  destruct (sinusoid_scales_and_clones (device := strict) 0 None None geared_wave
              wave_params (mkOutcome JNull "sine") []
              (ok ++ [("amplitude", num 180); ("offset", num 20)])
              eq_refl wave_params_distinct
              (conj eq_refl (conj eq_refl eq_refl)))
    as (rsp & w' & Hrun & Hsent & Hamp & Hoff & _ & _ & Hact & _ & Hramp
        & Hroff & _ & Hheap & _).
  eexists. exists rsp, w'.
  split; [exact Hrun|]. split; [exact Hsent|]. split; [exact Hamp|].
  split; [exact Hoff|]. split; [exact Hramp|]. split; [exact Hroff|].
  split; [exact Hact|exact Hheap].
Defined.

End Runs.

(** ** Further properties *)

Section FurtherProperties.

Context {device : Device}.

(** *** [_sendCmd]: one command, one answer, one callback call *)

(** X1.  Whatever the device answers, [_sendCmd] sends exactly one command
    and settles: it returns the parsed reply and calls the callback with
    [(null, reply)], or it throws (the transport error when there is one,
    without looking at the line; else the parse failure) and calls the
    callback with [(err, null)].  The callback is called exactly once. *)
Theorem sendCmd_settles_once cmd id w :
  let '(r, w') := _sendCmd cmd (Some id) w in
  sent w' = sent w ++ [cmd] /\
  exists o,
    received w' = received w ++ [o] /\
    ((exists v, r = Ret v /\ calls w' = calls w ++ [mkCall id JNull v] /\
                truthy (d_err o) = false /\ parse (d_rsp o) = Some v) \/
     (exists e, r = Throw e /\ calls w' = calls w ++ [mkCall id e JNull] /\
                ((truthy (d_err o) = true /\ e = d_err o) \/
                 (truthy (d_err o) = false /\ parse (d_rsp o) = None /\
                  e = syntax_error (d_rsp o))))).
Proof.
  unfold _sendCmd, device_sendCmd, sendCmd_callback. cbn.
  destruct (respond (stringify cmd) (dev w)) as [o d'].
  destruct (truthy (d_err o)) eqn:He; cbn.
  - split; [reflexivity|]. exists o. split; [reflexivity|].
    right. exists (d_err o). auto.
  - destruct (parse (d_rsp o)) as [v|] eqn:Hp; cbn.
    + split; [reflexivity|]. exists o. split; [reflexivity|].
      left. exists v. auto.
    + split; [reflexivity|]. exists o. split; [reflexivity|].
      right. exists (syntax_error (d_rsp o)). auto 6.
Qed.

(** *** Rounding in [setFullstepPerRev] *)

Lemma round_half_away_close q :
  (Qabs (inject_Z (round_half_away q) - q) <= 1 # 2)%Q.
Proof.
  destruct q as [n d]. unfold round_half_away, Qle, Qabs, Qminus, Qplus, Qopp,
    inject_Z. cbn [Qnum Qden].
  set (a := Z.abs n). set (D := Z.pos d).
  assert (HD : (0 < D)%Z) by (subst D; lia).
  pose proof (Z.div_mod (2 * a + D) (2 * D) ltac:(lia)) as Hdm.
  pose proof (Z.mod_pos_bound (2 * a + D) (2 * D) ltac:(lia)) as Hmod.
  set (m := ((2 * a + D) / (2 * D))%Z) in *.
  replace (Z.pos (1 * d)) with D by (subst D; lia).
  destruct (Z.sgn_spec n) as [[Hn ->]|[[Hn ->]|[Hn ->]]]; subst a; nia.
Qed.

Lemma round_half_away_integer k : round_half_away (inject_Z k) = k.
Proof.
  unfold round_half_away, inject_Z. cbn [Qnum Qden].
  replace ((2 * Z.abs k + 1) / (2 * 1))%Z with (Z.abs k).
  - destruct (Z.sgn_spec k) as [[Hn ->]|[[Hn ->]|[Hn ->]]]; lia.
  - apply Z.div_unique with (r := 1%Z); lia.
Qed.

(** X2.  [setFullstepPerRev(x)] for a finite number below 1e21 in magnitude
    sends the nearest integer: the value sent is an integer at most one half
    away from [x], and is [x] itself when [x] is an integer. *)
Theorem setFullstepPerRev_sends_nearest_integer s m e callback w :
  let x := S754_finite s m e in
  (Qabs (exact x) < inject_Z (10 ^ 21))%Q ->
  exists z : Z,
    setFullstepPerRev (JNum x) callback w =
      _sendCmd (JObj [ ("command", JStr "set_fullstep_per_rev");
                       ("fullstep_per_rev",
                        JNum (if (z =? 0)%Z then S754_zero s else of_Z z)) ])
               callback w /\
    (Qabs (inject_Z z - exact x) <= 1 # 2)%Q /\
    (forall k : Z, (exact x == inject_Z k)%Q -> z = k).
Proof.
  intros x Hsmall. exists (round_half_away (exact x)).
  split.
  - unfold setFullstepPerRev, with_arg, toFixed0. fold x.
    destruct (Qle_bool (inject_Z (10 ^ 21)) (Qabs (exact x))) eqn:E; [|reflexivity].
    apply Qle_bool_iff in E. exfalso. revert E. now apply Qlt_not_le.
  - split; [apply round_half_away_close|].
    intros k Hk. pose proof (round_half_away_close (exact x)) as Hclose.
    revert Hk Hclose. generalize (round_half_away (exact x)). intros z.
    destruct (exact x) as [n d].
    unfold Qeq, Qle, Qabs, Qminus, Qplus, Qopp, inject_Z. cbn [Qnum Qden].
    intros Hk Hclose. nia.
Qed.

(** *** [setParams]: inputs that send nothing *)

(** X3.  A truthy [fullstepPerRev] that is not a number makes [setParams]
    throw before anything is sent, whatever the other fields are: the first
    setter calls [toFixed] on it. *)
Theorem setParams_rejects_non_numeric_fullstep fs w :
  truthy (field "fullstepPerRev" fs) = true ->
  (forall n, field "fullstepPerRev" fs <> JNum n) ->
  exists e, setParams (JObj fs) w = (Throw e, w).
Proof.
  intros Htruthy Hnot. exists (type_error "toFixed").
  unfold setParams, paramSetters. cbn [setParams_from].
  rewrite bind_getProp_obj, Htruthy. cbn [setterMethod].
  destruct (field "fullstepPerRev" fs) eqn:E; try reflexivity.
  now destruct (Hnot n).
Qed.

Lemma setParams_from_nothing table fs w :
  (forall name, In name (map fst table) -> truthy (field name fs) = false) ->
  setParams_from table (JObj fs) w = (Ret (JObj [("success", JBool true)]), w).
Proof.
  induction table as [|[name setter] rest IH]; intros H; cbn [setParams_from].
  - reflexivity.
  - rewrite bind_getProp_obj, (H name) by now left.
    apply IH. intros n Hin. apply H. now right.
Qed.

(** X4.  When none of the six fields of [params] holds a truthy value (the
    empty mapping, for one), [setParams] sends nothing, leaves the
    connection as it is and returns [{success: true}]; on [null] or
    [undefined] it throws, again without sending anything. *)
Theorem setParams_without_truthy_field fs w :
  (forall name, In name (map fst paramSetters) -> truthy (field name fs) = false) ->
  setParams (JObj fs) w = (Ret (JObj [("success", JBool true)]), w) /\
  setParams (JObj []) w = (Ret (JObj [("success", JBool true)]), w) /\
  (exists e, setParams JNull w = (Throw e, w)) /\
  (exists e, setParams JUndefined w = (Throw e, w)).
Proof.
  intros H. split; [now apply setParams_from_nothing|].
  split; [reflexivity|]. split; eexists; reflexivity.
Qed.

(** *** [getPosition]: missing position, zero gear ratio *)

Lemma set_missing k v fs :
  is_index k = None -> lookup k fs = None -> set k v fs = fs ++ [(k, v)].
Proof.
  intros Hname Hnone. unfold set, has_key. now rewrite Hnone, Hname.
Qed.

(** X5.  When the reply to [get_position] has no [position] field (a failed
    query, say), [getPosition] still returns the reply, with a [position] of
    NaN added to it, whatever the gear ratio is. *)
Theorem getPosition_without_position callback w o d' reply :
  answers (JObj (command "get_position")) w o d' (JObj reply) ->
  lookup "position" reply = None ->
  getPosition callback w =
    (Ret (JObj (reply ++ [("position", JNum NNaN)])),
     call callback JNull (JObj reply)
          (exchanged (JObj (command "get_position")) o d' w)).
Proof.
  intros Hans Hnone. unfold getPosition, simple, cloneDeep.
  rewrite (bind_ret _ _ _ _ _ _ _ (sendCmd_reply _ _ _ _ _ _ Hans)).
  rewrite bind_getProp_obj, bind_get. unfold field. rewrite Hnone.
  cbn [setProp ret]. rewrite set_missing by (reflexivity || assumption).
  reflexivity.
Qed.

(** X6.  With a gear ratio of zero [getPosition] never returns a finite
    position: a finite device position comes back as NaN when it is zero and
    as an infinity otherwise. *)
Theorem getPosition_with_zero_ratio (sg : bool) (p : Num) callback w o d' reply :
  gearRatio w = JNum (S754_zero sg) ->
  answers (JObj (command "get_position")) w o d' (JObj reply) ->
  field "position" reply = JNum p ->
  exists rsp n w',
    getPosition callback w = (Ret (JObj rsp), w') /\
    field "position" rsp = JNum n /\
    (forall s m e, n <> S754_finite s m e) /\
    (forall s, n <> S754_zero s) /\
    (forall s, p = S754_zero s -> n = NNaN) /\
    (forall s m e, p = S754_finite s m e -> exists neg, n = NInf neg).
Proof.
  intros Hg Hans Hpos.
  set (n := SFdiv prec emax p (S754_zero sg)).
  exists (set "position" (JNum n) reply), n,
    (call callback JNull (JObj reply) (exchanged (JObj (command "get_position")) o d' w)).
  split.
  { unfold getPosition, simple, cloneDeep.
    rewrite (bind_ret _ _ _ _ _ _ _ (sendCmd_reply _ _ _ _ _ _ Hans)).
    rewrite bind_getProp_obj, bind_get, Hpos.
    destruct (call_keeps callback JNull (JObj reply)
                (exchanged (JObj (command "get_position")) o d' w))
      as (_ & _ & _ & -> & _).
    cbn [exchanged set_received set_dev set_sent gearRatio]. rewrite Hg.
    reflexivity. }
  split; [apply field_set_same|].
  subst n. repeat split.
  - intros s m e. destruct p; discriminate.
  - intros s. destruct p; discriminate.
  - intros s ->. reflexivity.
  - intros s m e ->. eexists. reflexivity.
Qed.

(** *** The stream callback after [sinusoid] *)

Lemma deliver_registered id sample w :
  streamCallback w = Some (Some id) ->
  calls (deliver sample w) = calls w ++ [mkCall id (fst sample) (snd sample)] /\
  streamCallback (deliver sample w) = Some (Some id).
Proof.
  intros H. unfold deliver, streamCallbackWrapped. rewrite H.
  destruct (truthy (fst sample) || isEmpty (snd sample)); cbn; auto.
Qed.

(** X7.  Once [sinusoid] has registered the caller's stream callback, every
    sample the device delivers reaches it, in order and as delivered (no
    gear-ratio scaling), and the callback stays registered: samples that
    arrive after the one that ended the stream are forwarded as well. *)
Theorem samples_forwarded_verbatim id samples w :
  streamCallback w = Some (Some id) ->
  let w' := fold_left (fun acc sample => deliver sample acc) samples w in
  calls w' = calls w ++ map (fun s => mkCall id (fst s) (snd s)) samples /\
  streamCallback w' = Some (Some id) /\
  sent w' = sent w.
Proof.
  revert w. induction samples as [|s rest IH]; intros w Hreg; cbn.
  - rewrite app_nil_r. auto.
  - destruct (deliver_registered id s w Hreg) as (Hc & Hr).
    destruct (IH (deliver s w) Hr) as (Hc' & Hr' & Hs').
    cbn in *. rewrite Hc', Hc, <- app_assoc. cbn.
    destruct (deliver_keeps s w) as (_ & Hs & _).
    rewrite Hs', Hs. auto.
Qed.

(** *** [busyWait] while the stream goes on *)

Lemma deliver_going sample w :
  terminating sample = false ->
  sinusoidRunning (deliver sample w) = sinusoidRunning w.
Proof.
  unfold terminating, deliver, streamCallbackWrapped. intros H.
  destruct (streamCallback w) as [captured|]; [|reflexivity].
  rewrite H. now destruct captured.
Qed.

Lemma deliver_all_going samples w :
  Forall (fun s => terminating s = false) samples ->
  sinusoidRunning (fold_left (fun acc s => deliver s acc) samples w)
    = sinusoidRunning w.
Proof.
  revert w. induction samples as [|s rest IH]; intros w H; cbn; [reflexivity|].
  inversion H; subst. rewrite IH by assumption. now apply deliver_going.
Qed.

Lemma deliver_all_arrivals samples w :
  arrivals (fold_left (fun acc s => deliver s acc) samples w) = arrivals w.
Proof.
  revert w. induction samples as [|s rest IH]; intros w; cbn; [reflexivity|].
  rewrite IH. unfold deliver, streamCallbackWrapped.
  destruct (streamCallback w) as [[id|]|];
    destruct (truthy (fst s) || isEmpty (snd s)); reflexivity.
Qed.

(** X8.  While the session is active and no arriving sample ends the
    stream, [busyWait] sends no command and does not resolve, however many
    ticks pass; in particular it waits for ever when no sample arrives at
    all. *)
Theorem busyWait_waits_through_stream fuel callback w :
  sinusoidRunning w = true ->
  Forall (Forall (fun s => terminating s = false)) (arrivals w) ->
  exists w',
    busyWait fuel callback w = (OutOfFuel, w') /\
    sent w' = sent w /\
    sinusoidRunning w' = true /\
    arrivals w' = skipn fuel (arrivals w).
Proof.
  intros Hrun Hgo.
  assert (Hloop : exists w',
             busyWait_loop fuel false w = (OutOfFuel, w') /\
             sent w' = sent w /\ sinusoidRunning w' = true /\
             arrivals w' = skipn fuel (arrivals w)).
  { revert w Hrun Hgo. induction fuel as [|fuel IH]; intros w Hrun Hgo.
    - exists w. cbn. auto.
    - rewrite busyWait_loop_step. unfold bind at 1.
      destruct (timeout_keeps w) as (Ht & _ & Hs & _).
      assert (Hrun1 : sinusoidRunning (snd (timeout w)) = true
                      /\ arrivals (snd (timeout w)) = tl (arrivals w)).
      { unfold timeout. destruct (arrivals w) as [|now later] eqn:E; cbn.
        - now rewrite E.
        - inversion Hgo; subst.
          rewrite deliver_all_going by assumption.
          rewrite deliver_all_arrivals. auto. }
      destruct Hrun1 as (Hrun1 & Harr1).
      destruct (timeout w) as [r w1]. cbn [fst snd] in *. subst r.
      cbv beta iota. rewrite (busyWait_body_streaming _ _ Hrun1).
      destruct (IH w1 Hrun1) as (w' & Hres & Hsent & Hrun' & Harr').
      { rewrite Harr1. destruct (arrivals w); [constructor|].
        now inversion Hgo. }
      exists w'. rewrite Hres, Hsent, Hs, Harr', Harr1.
      repeat split; auto.
      destruct (arrivals w); [now rewrite skipn_nil|reflexivity]. }
  destruct Hloop as (w' & Hres & Hrest).
  exists w'. unfold busyWait. now rewrite Hres.
Qed.

(** *** [busyWait] polling *)

Lemma sendCmd_failure cmd w o d' :
  respond (stringify cmd) (dev w) = (o, d') ->
  truthy (d_err o) = true \/ parse (d_rsp o) = None ->
  exists e, _sendCmd cmd None w = (Throw e, exchanged cmd o d' w).
Proof.
  intros Hr Hfail. unfold _sendCmd, device_sendCmd, sendCmd_callback. cbn.
  rewrite Hr. cbn.
  destruct (truthy (d_err o)) eqn:He; [eexists; reflexivity|].
  destruct Hfail as [Hfail|Hfail]; [discriminate|].
  rewrite Hfail. eexists. reflexivity.
Qed.

Lemma tick_idle w :
  sinusoidRunning w = false ->
  (timeout ;;; busyWait_body false) w = poll_status (snd (timeout w)) /\
  sinusoidRunning (snd (timeout w)) = false /\
  dev (snd (timeout w)) = dev w /\
  sent (snd (timeout w)) = sent w.
Proof.
  intros Hidle.
  destruct (timeout_keeps w) as (Ht & Hd & Hs & _ & _ & Hr).
  specialize (Hr Hidle). repeat split; auto.
  unfold bind. destruct (timeout w) as [r w1]. cbn [fst snd] in *. subst r.
  now apply busyWait_body_idle.
Qed.

(** X9.  When the status query itself fails during a poll (a transport
    error, a reply that does not parse, or the reply [null]), [busyWait]
    neither resolves nor rejects: its promise stays pending, and its
    callback is not called. *)
Theorem busyWait_pending_after_failed_query fuel id w o d' :
  sinusoidRunning w = false ->
  respond (stringify is_busy_cmd) (dev w) = (o, d') ->
  truthy (d_err o) = true \/ parse (d_rsp o) = None \/
    (truthy (d_err o) = false /\ parse (d_rsp o) = Some JNull) ->
  let w' := exchanged is_busy_cmd o d' (snd (timeout w)) in
  busyWait (S fuel) (Some id) w = (Blocked, w') /\
  sent w' = sent w ++ [is_busy_cmd] /\
  calls w' = calls (snd (timeout w)).
Proof.
  intros Hidle Hr Hfail w'.
  destruct (tick_idle w Hidle) as (Htick & _ & Hd & Hs).
  split; [|split; [subst w'; cbn; now rewrite Hs|reflexivity]].
  unfold busyWait. rewrite busyWait_loop_step, Htick.
  assert (Hr' : respond (stringify is_busy_cmd) (dev (snd (timeout w))) = (o, d'))
    by now rewrite Hd.
  unfold poll_status, isBusy, simple. fold is_busy_cmd.
  destruct Hfail as [Hfail|[Hfail|(He & Hnull)]].
  - destruct (sendCmd_failure _ _ _ _ Hr' (or_introl Hfail)) as (e & Hsend).
    unfold bind at 1. now rewrite Hsend.
  - destruct (sendCmd_failure _ _ _ _ Hr' (or_intror Hfail)) as (e & Hsend).
    unfold bind at 1. now rewrite Hsend.
  - rewrite (bind_ret _ _ _ _ _ _ _
               (sendCmd_reply_plain _ _ _ _ _ (conj Hr' (conj He Hnull)))).
    reflexivity.
Qed.

Lemma busy_for_unfold n d :
  busy_for n d =
  (let (o, d') := respond (stringify is_busy_cmd) d in
   truthy (d_err o) = false /\
   exists fs,
     parse (d_rsp o) = Some (JObj fs) /\
     match n with
     | O => truthy (field "success" fs) = false \/
            truthy (field "is_busy" fs) = false
     | S n' => truthy (field "success" fs) = true /\
               truthy (field "is_busy" fs) = true /\
               busy_for n' d'
     end).
Proof. destruct n; reflexivity. Qed.

Lemma busyWait_loop_counts n :
  forall fuel w,
    sinusoidRunning w = false ->
    busy_for n (dev w) ->
    n < fuel ->
    exists w',
      busyWait_loop fuel false w = (Ret tt, w') /\
      sent w' = sent w ++ repeat is_busy_cmd (S n) /\
      sinusoidRunning w' = false.
Proof.
  induction n as [|n IH]; intros fuel w Hidle Hbusy Hfuel;
    (destruct fuel as [|fuel]; [lia|]);
    rewrite busy_for_unfold in Hbusy;
    destruct (tick_idle w Hidle) as (Htick & Hidle1 & Hd & Hs);
    rewrite <- Hd in Hbusy;
    destruct (respond (stringify is_busy_cmd) (dev (snd (timeout w))))
      as [o d'] eqn:Hr;
    destruct Hbusy as (He & fs & Hp & Hn);
    pose proof (poll_status_reply _ _ _ _ (conj Hr (conj He Hp))) as Hpoll;
    rewrite busyWait_loop_step, Htick, Hpoll; unfold poll_verdict.
  - exists (exchanged is_busy_cmd o d' (snd (timeout w))).
    assert (Hv : (if truthy (field "success" fs)
                  then negb (truthy (field "is_busy" fs)) else true) = true).
    { destruct Hn as [-> | ->]; [reflexivity|].
      now destruct (truthy (field "success" fs)). }
    rewrite Hv, busyWait_loop_done. cbn. rewrite Hs. auto.
  - destruct Hn as (Hsucc & Hb & Hrest). rewrite Hsucc, Hb. cbn [negb].
    destruct (IH fuel (exchanged is_busy_cmd o d' (snd (timeout w))))
      as (w' & Hrun & Hsent & Hidle'); [exact Hidle1|exact Hrest|lia|].
    exists w'. rewrite Hrun, Hsent. cbn. rewrite Hs, <- app_assoc. auto.
Qed.

(** X10.  With no stream active, when the controller reports busy [n] times
    and then not busy (or a failure), [busyWait] sends exactly [n + 1]
    status queries and nothing else, then resolves with [undefined] and
    calls its callback once with [(null, undefined)]. *)
Theorem busyWait_polls_until_idle n fuel id w :
  sinusoidRunning w = false ->
  busy_for n (dev w) ->
  n < fuel ->
  exists w',
    busyWait fuel (Some id) w = (Ret JUndefined, w') /\
    sent w' = sent w ++ repeat is_busy_cmd (S n) /\
    exists before, calls w' = before ++ [mkCall id JNull JUndefined].
Proof.
  intros Hidle Hbusy Hfuel.
  destruct (busyWait_loop_counts n fuel w Hidle Hbusy Hfuel)
    as (w1 & Hrun & Hsent & _).
  exists (call (Some id) JNull JUndefined w1).
  unfold busyWait. rewrite Hrun. cbn. rewrite Hsent.
  repeat split. now exists (calls w1).
Qed.

End FurtherProperties.

(** *** Relations every plain method preserves *)

Section Preserved.

Context {device : Device}.

(** A preorder on worlds that one exchange with the device and one poll
    delay respect. *)
Variable R : World -> World -> Prop.
Hypothesis R_refl : forall w, R w w.
Hypothesis R_trans : forall w1 w2 w3, R w1 w2 -> R w2 w3 -> R w1 w3.
Hypothesis R_sendCmd : forall cmd callback, preserves R (_sendCmd cmd callback).
Hypothesis R_timeout : preserves R timeout.
Hypothesis R_call : forall callback err rsp w, R w (call callback err rsp w).

Lemma preserves_ret A (a : A) : preserves R (ret a).
Proof. intros w. apply R_refl. Qed.

Lemma preserves_throw A e : preserves R (@throw _ A e).
Proof. intros w. apply R_refl. Qed.

Lemma preserves_get A (f : World -> A) : preserves R (get f).
Proof. intros w. apply R_refl. Qed.

Lemma preserves_bind A B (m : M A) (f : A -> M B) :
  preserves R m -> (forall a, preserves R (f a)) -> preserves R (bind m f).
Proof.
  intros Hm Hf w. unfold bind. specialize (Hm w).
  destruct (m w) as [[a|e| |] w1]; cbn in *; try assumption.
  eapply R_trans; [exact Hm|apply Hf].
Qed.

Lemma preserves_getProp v k : preserves R (getProp v k).
Proof. destruct v; intros w; apply R_refl. Qed.

Lemma preserves_setProp v k x : preserves R (setProp v k x).
Proof. destruct v; intros w; apply R_refl. Qed.

Lemma preserves_deleteProp v k : preserves R (deleteProp v k).
Proof. destruct v; intros w; apply R_refl. Qed.

Ltac preserve :=
  repeat first
    [ apply preserves_ret | apply preserves_throw | apply preserves_get
    | apply preserves_getProp | apply preserves_setProp
    | apply preserves_deleteProp | apply R_sendCmd | apply R_timeout
    | apply preserves_bind; [| intros ?]
    | match goal with
      | |- preserves _ (if ?b then _ else _) => destruct b
      | |- preserves _ (match ?x with _ => _ end) => destruct x
      end ].

Lemma preserves_simple name callback : preserves R (simple name callback).
Proof. unfold simple. preserve. Qed.

Lemma preserves_with_arg name key x callback :
  preserves R (with_arg name key x callback).
Proof. unfold with_arg. preserve. Qed.

Lemma preserves_with_spread name params callback :
  preserves R (with_spread name params callback).
Proof. unfold with_spread. preserve. Qed.

Lemma preserves_setFullstepPerRev x callback :
  preserves R (setFullstepPerRev x callback).
Proof. unfold setFullstepPerRev, with_arg. preserve. Qed.

Lemma preserves_setterMethod s value : preserves R (setterMethod s value).
Proof.
  destruct s; cbn [setterMethod];
    first [ apply preserves_setFullstepPerRev | apply preserves_with_arg
          | apply preserves_with_spread ].
Qed.

Lemma preserves_setParams_from table params :
  preserves R (setParams_from table params).
Proof.
  induction table as [|[paramName setter] rest IH]; cbn [setParams_from].
  - preserve.
  - apply preserves_bind; [preserve|]. intros paramValue.
    destruct (truthy paramValue); [|exact IH].
    apply preserves_bind; [apply preserves_setterMethod|]. intros rsp.
    apply preserves_bind; [preserve|]. intros success.
    destruct (negb (truthy success)); [preserve|exact IH].
Qed.

Lemma preserves_getParams : preserves R getParams.
Proof.
  unfold getParams, getFullstepPerRev, getStepMode, getOCThreshold,
    getJogModeParams, getMaxModeParams, getKvalParams, simple. preserve.
Qed.

Lemma preserves_moveTo x callback : preserves R (moveTo x callback).
Proof. unfold moveTo, with_arg. preserve. Qed.

Lemma preserves_getPosition callback : preserves R (getPosition callback).
Proof. unfold getPosition, simple, cloneDeep. preserve. Qed.

Lemma preserves_poll_status : preserves R poll_status.
Proof. unfold poll_status, isBusy, simple. preserve. Qed.

Lemma preserves_busyWait_body done : preserves R (busyWait_body done).
Proof.
  unfold busyWait_body. apply preserves_bind; [preserve|]. intros [|].
  - preserve.
  - apply preserves_poll_status.
Qed.

Lemma preserves_busyWait_loop fuel done : preserves R (busyWait_loop fuel done).
Proof.
  revert done. induction fuel as [|fuel IH]; intros [|]; cbn [busyWait_loop];
    try (intros w; apply R_refl).
  apply preserves_bind; [preserve|]. intros _.
  apply preserves_bind; [apply preserves_busyWait_body|]. intros done'. apply IH.
Qed.

Lemma preserves_busyWait fuel callback : preserves R (busyWait fuel callback).
Proof.
  intros w. unfold busyWait. pose proof (preserves_busyWait_loop fuel false w) as H.
  destruct (busyWait_loop fuel false w) as [[u|e| |] w1]; cbn in *; try assumption.
  eapply R_trans; [exact H|apply R_call].
Qed.

Lemma preserves_autoset_step step msg promise w :
  preserves R step -> R w (snd (autoset_step step msg promise w)).
Proof.
  intros Hstep. unfold autoset_step.
  assert (H : preserves R (rsp <- step ;; getProp rsp "success"))
    by (apply preserves_bind; [exact Hstep|intros rsp; preserve]).
  specialize (H w).
  destruct ((rsp <- step ;; getProp rsp "success") w) as [[s|e| |] w1]; exact H.
Qed.

Lemma preserves_autoset_executor fuel w : R w (snd (autoset_executor fuel w)).
Proof.
  unfold autoset_executor.
  pose proof (preserves_autoset_step (autosetPosition None)
                "autoset: set position failed" Pending w
                (preserves_simple _ _)) as H1.
  destruct (autoset_step (autosetPosition None) _ Pending w) as [[p1 r1] w1].
  cbn [snd] in H1. destruct r1; try exact H1.
  pose proof (preserves_autoset_step (moveTo AUTOSET_POSITION_START_ANGLE None)
                "autoset: move to start position failed" p1 w1
                (preserves_moveTo _ _)) as H2.
  destruct (autoset_step (moveTo _ None) _ p1 w1) as [[p2 r2] w2].
  cbn [snd] in H2. destruct r2; try (eapply R_trans; [exact H1|exact H2]).
  pose proof (preserves_busyWait fuel None w2) as H3.
  destruct (busyWait fuel None w2) as [[v|e| |] w3]; cbn [snd] in *;
    try (eapply R_trans; [exact H1|eapply R_trans; [exact H2|exact H3]]).
  eapply R_trans; [exact H1|]. eapply R_trans; [exact H2|].
  eapply R_trans; [exact H3|].
  apply preserves_autoset_step, preserves_simple.
Qed.

Lemma plain_methods_preserve fuel op w :
  plain_method op = true -> R w (perform fuel op w).
Proof.
  unfold perform. destruct op; cbn [plain_method method]; intros Hplain;
    try discriminate;
    first
      [ apply preserves_simple
      | apply preserves_with_arg
      | apply preserves_with_spread
      | apply preserves_moveTo
      | apply preserves_getPosition
      | apply preserves_busyWait
      | apply preserves_setFullstepPerRev
      | apply preserves_setParams_from
      | apply preserves_getParams
      | unfold run, setPosition, with_arg; preserve; fail
      | idtac ].
  unfold autosetPositionProcedure.
  pose proof (preserves_autoset_executor fuel w) as H.
  destruct (autoset_executor fuel w) as [[p r] w']. exact H.
Qed.

End Preserved.

(** *** Who starts a session *)

Section Sessions.

Context {device : Device}.

Lemma sendCmd_same_session cmd callback : preserves same_session (_sendCmd cmd callback).
Proof.
  intros w. unfold _sendCmd, device_sendCmd. cbn.
  destruct (respond (stringify cmd) (dev w)) as [o d'].
  destruct (sendCmd_callback o Pending), callback; split; reflexivity.
Qed.

Lemma sendCmd_sent cmd callback w :
  sent (snd (_sendCmd cmd callback w)) = sent w ++ [cmd].
Proof.
  unfold _sendCmd, device_sendCmd. cbn.
  destruct (respond (stringify cmd) (dev w)) as [o d'].
  destruct (sendCmd_callback o Pending), callback; reflexivity.
Qed.

Lemma same_session_refl w : same_session w w.
Proof. split; reflexivity. Qed.

Lemma same_session_trans w1 w2 w3 :
  same_session w1 w2 -> same_session w2 w3 -> same_session w1 w3.
Proof. intros [H1 H2] [H3 H4]. split; congruence. Qed.

Lemma stays_idle_trans w1 w2 w3 :
  stays_idle w1 w2 -> stays_idle w2 w3 -> stays_idle w1 w3.
Proof. unfold stays_idle. auto. Qed.

(** X11.  Only [sinusoid] starts a streaming session: when no session is
    active, none is active after any other operation, however it ends. *)
Theorem only_sinusoid_starts_a_session fuel op w :
  sinusoidRunning w = false ->
  match op with
  | OpSinusoid _ _ _ => True
  | _ => sinusoidRunning (perform fuel op w) = false
  end.
Proof.
  intros Hidle.
  assert (Hplain : plain_method op = true -> sinusoidRunning (perform fuel op w) = false).
  { intros Hp.
    apply (plain_methods_preserve stays_idle (fun w H => H) stays_idle_trans);
      try assumption.
    - intros cmd callback w0 H0.
      destruct (sendCmd_same_session cmd callback w0) as [-> _]. exact H0.
    - intros w0 H0. now apply (timeout_keeps w0).
    - intros callback err rsp w0 H0.
      now destruct (call_keeps callback err rsp w0) as (-> & _). }
  destruct op; try (apply Hplain; reflexivity); try exact I.
  - exact Hidle.
  - cbn. now apply (deliver_keeps sample w).
Qed.

(** X12.  [sinusoid] marks the session active and registers the stream
    callback before it sends the command, and nothing undoes that: the
    session is active afterwards whatever the device answers, also when the
    command fails or the call throws. *)
Theorem sinusoid_leaves_session_active params cmdCallback streamCb w fs :
  nth_error (heap w) params = Some fs ->
  let w' := snd (sinusoid params cmdCallback streamCb w) in
  sinusoidRunning w' = true /\
  streamCallback w' = Some streamCb /\
  exists cmd, sent w' = sent w ++ [cmd].
Proof.
  intros Hparams w'. subst w'.
  set (g := gearRatio w). set (h := heap w).
  set (fs1 := set "amplitude" (js_mul (field "amplitude" fs) g) fs).
  set (fs2 := set "offset" (js_mul (field "offset" fs1) g) fs1).
  set (wa := set_heap (h ++ [fs]) w).
  set (wb := set_heap (h ++ [fs1]) wa).
  set (wc := set_heap (h ++ [fs2]) wb).
  set (wd := set_sinusoidRunning true (set_streamCallback (Some streamCb) wc)).
  set (cmd := JObj (spread (command "sinusoid") (JObj fs2))).
  unfold sinusoid, cloneDeep.
  rewrite (bind_ret _ _ _ _ _ _ _ (heap_cloneDeep_run _ _ _ Hparams)).
  fold h. fold wa.
  rewrite (bind_ret _ _ _ _ _ _ _ (heap_read_last h fs wa eq_refl)).
  rewrite bind_get.
  rewrite (bind_ret _ _ _ _ _ _ _ (heap_setProp_last h fs _ _ wa eq_refl)).
  change (gearRatio wa) with g. fold fs1. fold wb.
  rewrite (bind_ret _ _ _ _ _ _ _ (heap_read_last h fs1 wb eq_refl)).
  rewrite bind_get.
  rewrite (bind_ret _ _ _ _ _ _ _ (heap_setProp_last h fs1 _ _ wb eq_refl)).
  change (gearRatio wb) with g. fold fs2. fold wc.
  rewrite (bind_ret _ _ _ _ _ _ _ (heap_read_last h fs2 wc eq_refl)).
  rewrite !bind_modify. fold cmd. fold wd.
  assert (Hsession : same_session wd (snd (_sendCmd cmd cmdCallback wd)))
    by apply sendCmd_same_session.
  pose proof (sendCmd_sent cmd cmdCallback wd) as Hsent.
  match goal with
  | |- context [snd (?m wd)] => remember (snd (m wd)) as wfin eqn:Hfin
  end.
  unfold bind at 1 in Hfin.
  destruct (_sendCmd cmd cmdCallback wd) as [r w1].
  cbn [snd] in Hsession, Hsent. destruct Hsession as [Hrun Hreg].
  assert (Hw1 : sinusoidRunning w1 = true /\ streamCallback w1 = Some streamCb /\
                exists c, sent w1 = sent w ++ [c]).
  { rewrite Hrun, Hreg, Hsent. repeat split. now exists cmd. }
  destruct r as [rsp|e| |]; cbn [snd] in Hfin; try (subst wfin; exact Hw1).
  match type of Hfin with
  | _ = snd (?k w1) => assert (Heq : w1 = snd (k w1))
  end.
  { repeat first
      [ apply (preserves_getProp eq (@eq_refl _))
      | apply (preserves_setProp eq (@eq_refl _))
      | apply (preserves_ret eq (@eq_refl _))
      | apply (preserves_get eq (@eq_refl _))
      | apply (preserves_bind eq (@eq_trans _)); [| intros ?] ]. }
  rewrite <- Heq in Hfin. subst wfin. exact Hw1.
Qed.

End Sessions.

(** *** [getParams] on any device *)

Section Getters.

Context {device : Device}.








Lemma bind_inv A B (m : M A) (f : A -> M B) w b w' :
  bind m f w = (Ret b, w') ->
  exists a w1, m w = (Ret a, w1) /\ f a w1 = (Ret b, w').
Proof.
  unfold bind. destruct (m w) as [[a|e| |] w1]; try discriminate.
  intros H. now exists a, w1.
Qed.

Lemma lookup_remove_same k fs : lookup k (remove k fs) = None.
Proof.
  induction fs as [|[k' v'] rest IH]; cbn; [reflexivity|].
  destruct (String.eqb k k') eqn:E; cbn; [exact IH|now rewrite E].
Qed.

Lemma lookup_remove_other k k' fs :
  String.eqb k k' = false -> lookup k (remove k' fs) = lookup k fs.
Proof.
  intros Hne. induction fs as [|[k0 v0] rest IH]; cbn; [reflexivity|].
  destruct (String.eqb k' k0) eqn:E; cbn.
  - apply String.eqb_eq in E. subst k0. now rewrite Hne.
  - now rewrite IH.
Qed.

Lemma deleteProp_success_inv v w x w' :
  deleteProp v "success" w = (Ret x, w') -> without_success x.
Proof.
  destruct v; cbn; intros H; inversion H; subst; intros fs' Hfs;
    try discriminate.
  inversion Hfs; subst. unfold has_key. now rewrite lookup_remove_same.
Qed.

(** X14.  Whenever [getParams] returns, its result is a mapping with
    exactly the six keys, in order, and the [jogMode], [maxMode] and [kval]
    values carry no [success] key. *)
Theorem getParams_result_shape w params w' :
  getParams w = (Ret params, w') ->
  exists fullstepPerRev stepMode threshold jogMode maxMode kval,
    params = JObj [ ("fullstepPerRev", fullstepPerRev);
                    ("stepMode", stepMode);
                    ("threshold", threshold);
                    ("jogMode", jogMode);
                    ("maxMode", maxMode);
                    ("kval", kval) ] /\
    without_success jogMode /\
    without_success maxMode /\
    without_success kval.
Proof.
  unfold getParams. intros H.
  apply bind_inv in H. destruct H as (r1 & w1 & _ & H).
  apply bind_inv in H. destruct H as (fl & w2 & _ & H).
  apply bind_inv in H. destruct H as (r2 & w3 & _ & H).
  apply bind_inv in H. destruct H as (st & w4 & _ & H).
  apply bind_inv in H. destruct H as (r3 & w5 & _ & H).
  apply bind_inv in H. destruct H as (th & w6 & _ & H).
  apply bind_inv in H. destruct H as (r4 & w7 & _ & H).
  apply bind_inv in H. destruct H as (jog & w8 & Hjog & H).
  apply bind_inv in H. destruct H as (r5 & w9 & _ & H).
  apply bind_inv in H. destruct H as (mx & w10 & Hmx & H).
  apply bind_inv in H. destruct H as (r6 & w11 & _ & H).
  apply bind_inv in H. destruct H as (kv & w12 & Hkv & H).
  inversion H; subst.
  exists fl, st, th, jog, mx, kv. split; [reflexivity|].
  repeat split; eapply deleteProp_success_inv; eassumption.
Qed.

End Getters.

(** *** Parameters passed by spread *)

Section Spread.

Context {device : Device}.

(** X15.  [setJogModeParams], [setMaxModeParams] and [setKvalParams] send
    the fields of [params] as they are (no scaling by the gear ratio), next
    to the command name; the command carries no other field, and a
    [command] key in [params] replaces the command name. *)
Theorem mode_params_sent_verbatim s fs w :
  s = SetJogModeParams \/ s = SetMaxModeParams \/ s = SetKvalParams ->
  NoDup (map fst fs) ->
  exists name cmd,
    setterMethod s (JObj fs) w = _sendCmd (JObj cmd) None w /\
    name = match s with
           | SetJogModeParams => "set_jog_mode_params"
           | SetMaxModeParams => "set_max_mode_params"
           | _ => "set_kval_params"
           end /\
    (forall k v, lookup k fs = Some v -> field k cmd = v) /\
    (forall k, lookup k fs = None -> String.eqb k "command" = false ->
               lookup k cmd = None) /\
    (lookup "command" fs = None -> field "command" cmd = JStr name).
Proof.
  intros Hs Hnd.
  assert (Hgen : forall name,
            (forall k v, lookup k fs = Some v ->
                         field k (spread (command name) (JObj fs)) = v) /\
            (forall k, lookup k fs = None -> String.eqb k "command" = false ->
                       lookup k (spread (command name) (JObj fs)) = None) /\
            (lookup "command" fs = None ->
             field "command" (spread (command name) (JObj fs)) = JStr name)).
  { intros name. repeat split.
    - intros k v Hk. now rewrite (field_spread _ _ _ Hnd), Hk.
    - intros k Hk Hne. unfold spread. cbn [own_fields].
      rewrite (lookup_spread _ _ _ Hnd), Hk. cbn. now rewrite Hne.
    - intros Hk. now rewrite (field_spread _ _ _ Hnd), Hk. }
  destruct Hs as [-> | [-> | ->]].
  - exists "set_jog_mode_params", (spread (command "set_jog_mode_params") (JObj fs)).
    split; [reflexivity|]. split; [reflexivity|]. apply Hgen.
  - exists "set_max_mode_params", (spread (command "set_max_mode_params") (JObj fs)).
    split; [reflexivity|]. split; [reflexivity|]. apply Hgen.
  - exists "set_kval_params", (spread (command "set_kval_params") (JObj fs)).
    split; [reflexivity|]. split; [reflexivity|]. apply Hgen.
Qed.

End Spread.

(** *** The autoset procedure goes on after a failure *)

Section Autoset.

Context {device : Device}.









End Autoset.

(** *** [moveBy] *)

Section Relative.

Context {device : Device}.

Variable concat : JValue -> JValue -> JValue.

(** X17.  [moveBy(step)] reads the position and then moves: with gear ratio
    [g], reported device position [p] and a number [step], it sends
    [get_position] and then [move_to] with position [((p / g) + step) * g]
    computed in doubles, and nothing else.  The callback goes to the move
    only. *)
Theorem moveBy_reads_then_moves (g p step : Num) id w o d' reply :
  gearRatio w = JNum g ->
  answers (JObj (command "get_position")) w o d' (JObj reply) ->
  field "position" reply = JNum p ->
  let target :=
    SFmul prec emax (SFadd prec emax (SFdiv prec emax p g) step) g in
  let w' := snd (moveBy concat (JNum step) (Some id) w) in
  sent w' =
    sent w ++ [ JObj (command "get_position");
                JObj (command "move_to" ++ [("position", JNum target)]) ] /\
  exists err rsp, calls w' = calls w ++ [mkCall id err rsp].
Proof.
  intros Hg Hans Hpos target w'. subst w'.
  set (w1 := exchanged (JObj (command "get_position")) o d' w).
  assert (Hget : getPosition None w =
                 (Ret (JObj (set "position" (JNum (SFdiv prec emax p g)) reply)), w1)).
  { unfold getPosition, simple, cloneDeep.
    rewrite (bind_ret _ _ _ _ _ _ _ (sendCmd_reply_plain _ _ _ _ _ Hans)).
    rewrite bind_getProp_obj, Hpos, bind_get. fold w1.
    change (gearRatio w1) with (gearRatio w). rewrite Hg. reflexivity. }
  unfold moveBy. rewrite (bind_ret _ _ _ _ _ _ _ Hget).
  rewrite bind_getProp_obj, field_set_same.
  unfold moveTo, with_arg. rewrite bind_get.
  change (gearRatio w1) with (gearRatio w). rewrite Hg.
  change (js_mul (js_add concat (JNum (SFdiv prec emax p g)) (JNum step)) (JNum g))
    with (JNum target).
  split.
  - rewrite sendCmd_sent. subst w1.
    cbn [exchanged set_received set_dev set_sent sent]. now rewrite <- app_assoc.
  - pose proof (sendCmd_settles_once
                  (JObj (command "move_to" ++ [("position", JNum target)])) id w1) as H.
    destruct (_sendCmd _ (Some id) w1) as [r w2]. cbn [snd].
    destruct H as (_ & o2 & _ & [(v & _ & Hc & _)|(e & _ & Hc & _)]);
      rewrite Hc; eexists; eexists; reflexivity.
Qed.

End Relative.

(** ** Further runs on the bench *)

Module FurtherRuns.

Import Bench.

Lemma setFullstepPerRev_sends_nearest_integer_witness :
  exists z : Z,
    setFullstepPerRev (device := strict) (num (401 # 2)) None (fresh ["ok"]) =
      _sendCmd (device := strict)
        (JObj [ ("command", JStr "set_fullstep_per_rev");
                ("fullstep_per_rev",
                 JNum (if (z =? 0)%Z then S754_zero false else of_Z z)) ])
        None (fresh ["ok"]) /\
    (Qabs (inject_Z z - exact (of_Q (401 # 2))) <= 1 # 2)%Q /\
    (exact (of_Q (401 # 2)) == 401 # 2)%Q.
Proof.
  destruct (setFullstepPerRev_sends_nearest_integer (device := strict)
              false 7054466603810816 (-45) None (fresh ["ok"]) eq_refl)
    as (z & Hrun & Hclose & _).
  exists z. split; [exact Hrun|]. split; [exact Hclose|]. reflexivity.
Defined.

Lemma setParams_rejects_non_numeric_fullstep_witness :
  exists e,
    setParams (device := strict)
      (JObj [("fullstepPerRev", JStr "200"); ("threshold", num 3)]) (fresh ["ok"])
    = (Throw e, fresh ["ok"]).
Proof.
  apply (setParams_rejects_non_numeric_fullstep (device := strict)
           [("fullstepPerRev", JStr "200"); ("threshold", num 3)] (fresh ["ok"])
           eq_refl).
  intros n. discriminate.
Defined.

Lemma setParams_without_truthy_field_witness :
  setParams (device := strict) (JObj [("threshold", num 0); ("other", num 1)])
            (fresh ["ok"])
  = (Ret (JObj [("success", JBool true)]), fresh ["ok"]).
Proof.
  apply (setParams_without_truthy_field (device := strict)
           [("threshold", num 0); ("other", num 1)] (fresh ["ok"])).
  intros name Hin. cbn in Hin.
  destruct Hin as [<-|[<-|[<-|[<-|[<-|[<-|[]]]]]]]; reflexivity.
Defined.

Lemma getPosition_without_position_witness :
  getPosition (device := strict) None (fresh ["fail"]) =
    (Ret (JObj (failed ++ [("position", JNum NNaN)])),
     exchanged (device := strict) (JObj (command "get_position"))
               (mkOutcome JNull "fail") [] (fresh ["fail"])).
Proof.
  exact (getPosition_without_position (device := strict) None (fresh ["fail"])
           (mkOutcome JNull "fail") [] failed
           (conj eq_refl (conj eq_refl eq_refl)) eq_refl).
Defined.

Lemma getPosition_with_zero_ratio_witness :
  exists rsp neg w',
    getPosition (device := strict) None (stalled ["at 6"]) = (Ret (JObj rsp), w') /\
    field "position" rsp = JNum (NInf neg).
Proof.
  destruct (getPosition_with_zero_ratio (device := strict) false (of_Q 6) None
              (stalled ["at 6"]) (mkOutcome JNull "at 6") []
              (ok ++ [("position", num 6)])
              eq_refl (conj eq_refl (conj eq_refl eq_refl)) eq_refl)
    as (rsp & n & w' & Hrun & Hpos & _ & _ & _ & Hinf).
  destruct (Hinf false 6755399441055744%positive (-50)%Z eq_refl) as (neg & ->).
  exists rsp, neg, w'. split; assumption.
Defined.

Lemma samples_forwarded_verbatim_witness :
  calls (fold_left (fun acc s => deliver (device := strict) s acc)
                   [sample; last_sample; sample] listening)
  = calls listening ++
    [ mkCall 7 (fst sample) (snd sample);
      mkCall 7 (fst last_sample) (snd last_sample);
      mkCall 7 (fst sample) (snd sample) ].
Proof.
  exact (proj1 (samples_forwarded_verbatim (device := strict) 7
                  [sample; last_sample; sample] listening eq_refl)).
Defined.

Lemma busyWait_waits_through_stream_witness :
  exists w',
    busyWait (device := strict) 5 None endless = (OutOfFuel, w') /\
    sent w' = sent endless.
Proof.
  destruct (busyWait_waits_through_stream (device := strict) 5 None endless eq_refl)
    as (w' & Hrun & Hsent & _).
  - repeat constructor.
  - exists w'. split; assumption.
Defined.

Lemma busyWait_pending_after_failed_query_witness :
  fst (busyWait (device := strict) 3 (Some 1) (fresh ["junk"])) = Blocked.
Proof.
  rewrite (proj1 (busyWait_pending_after_failed_query (device := strict) 2 1
                    (fresh ["junk"]) (mkOutcome JNull "junk") []
                    eq_refl eq_refl (or_intror (or_introl eq_refl)))).
  reflexivity.
Defined.

Lemma busyWait_polls_until_idle_witness :
  exists w',
    busyWait (device := strict) 5 (Some 1) (fresh ["busy"; "busy"; "idle"])
      = (Ret JUndefined, w') /\
    sent w' = [is_busy_cmd; is_busy_cmd; is_busy_cmd].
Proof.
  destruct (busyWait_polls_until_idle (device := strict) 2 5 1
              (fresh ["busy"; "busy"; "idle"]) eq_refl)
    as (w' & Hrun & Hsent & _).
  - cbn. split; [reflexivity|]. eexists. split; [reflexivity|].
    split; [reflexivity|]. split; [reflexivity|].
    split; [reflexivity|]. eexists. split; [reflexivity|].
    split; [reflexivity|]. split; [reflexivity|].
    split; [reflexivity|]. eexists. split; [reflexivity|].
    right. reflexivity.
  - lia.
  - exists w'. split; assumption.
Defined.

Lemma only_sinusoid_starts_a_session_witness :
  sinusoidRunning (perform (device := strict) 3 OpGetParams (fresh ["ok"])) = false.
Proof.
  exact (only_sinusoid_starts_a_session (device := strict) 3 OpGetParams
           (fresh ["ok"]) eq_refl).
Defined.

Lemma sinusoid_leaves_session_active_witness :
  (exists e, fst (sinusoid (device := strict) 0 None None garbled) = Throw e) /\
  sinusoidRunning (snd (sinusoid (device := strict) 0 None None garbled)) = true.
Proof.
  split; [eexists; reflexivity|].
  exact (proj1 (sinusoid_leaves_session_active (device := strict) 0 None None
                  garbled demo_params eq_refl)).
Defined.

Lemma getParams_result_shape_witness :
  exists fullstepPerRev stepMode threshold jogMode maxMode kval,
    JObj [ ("fullstepPerRev", JUndefined); ("stepMode", JUndefined);
           ("threshold", JUndefined); ("jogMode", JObj []);
           ("maxMode", JObj []); ("kval", JObj []) ]
    = JObj [ ("fullstepPerRev", fullstepPerRev); ("stepMode", stepMode);
             ("threshold", threshold); ("jogMode", jogMode);
             ("maxMode", maxMode); ("kval", kval) ] /\
    without_success jogMode /\ without_success maxMode /\ without_success kval.
Proof.
  apply (getParams_result_shape (device := tolerant) (lax ["fail"]) _
           (snd (getParams (device := tolerant) (lax ["fail"])))).
  vm_compute. reflexivity.
Defined.

Lemma mode_params_sent_verbatim_witness :
  exists cmd,
    setterMethod (device := strict) SetJogModeParams (JObj jog_params) (fresh ["ok"])
      = _sendCmd (device := strict) (JObj cmd) None (fresh ["ok"]) /\
    field "speed" cmd = num 100 /\
    field "command" cmd = JStr "set_jog_mode_params".
Proof.
  assert (Hnd : NoDup (map fst jog_params)).
  { repeat (constructor; [cbn; intuition discriminate|]). constructor. }
  destruct (mode_params_sent_verbatim (device := strict) SetJogModeParams
              jog_params (fresh ["ok"]) (or_introl eq_refl) Hnd)
    as (name & cmd & Hrun & Hname & Hfields & _ & Hcmd).
  exists cmd. split; [exact Hrun|]. split.
  - apply Hfields. reflexivity.
  - rewrite Hname in Hcmd. apply Hcmd. reflexivity.
Defined.


Lemma moveBy_reads_then_moves_witness :
  sent (snd (moveBy (device := strict) glue (num 1) (Some 4) (geared ["at 6"; "ok"])))
  = [ JObj (command "get_position");
      JObj (command "move_to" ++ [("position", num 8)]) ].
Proof.
  exact (proj1 (moveBy_reads_then_moves (device := strict) glue
                  (of_Q 2) (of_Q 6) (of_Q 1) 4
                  (geared ["at 6"; "ok"]) (mkOutcome JNull "at 6") ["ok"]
                  (ok ++ [("position", num 6)])
                  eq_refl (conj eq_refl (conj eq_refl eq_refl)) eq_refl)).
Defined.

End FurtherRuns.
